(** * The Prisma client type generator ([generation/TSClient.ts])

  A shallow embedding of the generator that turns a DMMF schema
  document into the TypeScript declarations of the client, together
  with the type-level functions those declarations define
  ([CheckSelect], [TrueKeys], the per-model [...GetPayload] type), and
  the properties the design document states about them.

  Layout: the data model, the helpers the generator imports, the
  generator itself (one definition per method of the source), the
  meaning of the emitted conditional types over literal selectors, the
  object store used to follow the mutation of argument descriptors, and
  then the theorems. *)

From Stdlib Require Import Ascii String.
From stdpp Require Import base option list strings gmap.

(** ** Errors

  [throw new Error(...)] and the [TypeError]s of reading a member of
  [undefined] abort the generation; both are a [Throw]. *)

Inductive result (A : Type) : Type :=
  | Ok (a : A)
  | Throw (message : string).
Arguments Ok {A} a.
Arguments Throw {A} message.

#[global] Instance result_ret : MRet result := λ A a, Ok a.
#[global] Instance result_bind : MBind result := λ A B f r,
  match r with Ok a => f a | Throw e => Throw e end.
#[global] Instance result_fmap : FMap result := λ A B f r,
  match r with Ok a => Ok (f a) | Throw e => Throw e end.

Definition is_Ok {A} (r : result A) : Prop := ∃ a, r = Ok a.

(** ** JavaScript strings and arrays *)

Module JS.

Definition LF : string := String (ascii_of_nat 10) EmptyString.

(** The double quote. *)
Definition DQ : string := String (ascii_of_nat 34) EmptyString.

(** [arr.join(sep)] *)
Definition join (sep : string) (arr : list string) : string :=
  String.concat sep arr.

(** [str.split('\n')]: the pieces between line feeds; never empty. *)
Fixpoint split_lines (str : string) : list string :=
  match str with
  | EmptyString => [EmptyString]
  | String c rest =>
      if Ascii.eqb c (ascii_of_nat 10) then EmptyString :: split_lines rest
      else match split_lines rest with
           | [] => [String c EmptyString]
           | l :: ls => String c l :: ls
           end
  end.

(** The characters the regular expression class [\s] accepts, as far
    as they occur in 7-bit text. *)
Definition is_space (c : ascii) : bool :=
  let n := nat_of_ascii c in
  (n =? 32)%nat || ((9 <=? n)%nat && (n <=? 13)%nat).

Fixpoint all_space (s : string) : bool :=
  match s with
  | EmptyString => true
  | String c rest => is_space c && all_space rest
  end.

Fixpoint repeat_space (count : nat) : string :=
  match count with
  | O => EmptyString
  | S n => String (ascii_of_nat 32) (repeat_space n)
  end.

(** The npm package [indent-string]:
    [string.replace(/^(?!\s*$)/gm, ' '.repeat(count))], every line
    that is not blank gets [count] spaces in front. *)
Definition indent_string (str : string) (count : nat) : string :=
  join LF ((λ l, if all_space l then l else repeat_space count +:+ l)
             <$> split_lines str).

(** Truthiness of a string or of [string | null | undefined]. *)
Definition truthy (s : string) : bool := negb (String.eqb s EmptyString).
Definition truthy_opt (v : option string) : bool :=
  match v with Some s => truthy s | None => false end.

End JS.

(** ** The schema model ([DMMF], from [runtime/dmmf-types])

  Only the members the generator reads are kept.  The records that
  hold argument descriptors are parameterised by the representation
  [A] of one descriptor object: the descriptor itself where a function
  is read by value, a location of the object store where the identity
  of the object matters. *)

Module DMMF.

(** [DMMF.ModelAction]. *)
Inductive ModelAction : Set :=
  | findOne | findMany | create | update
  | updateMany | upsert | delete | deleteMany.

#[global] Instance ModelAction_eq_dec : EqDecision ModelAction.
Proof. solve_decision. Defined.

(** The key (and value) of each member of the enumeration. *)
Definition action_name (a : ModelAction) : string :=
  match a with
  | findOne => "findOne" | findMany => "findMany"
  | create => "create" | update => "update"
  | updateMany => "updateMany" | upsert => "upsert"
  | delete => "delete" | deleteMany => "deleteMany"
  end.

(** The keys [for (const action in DMMF.ModelAction)] visits. *)
Definition ModelAction_keys : list ModelAction :=
  [findOne; findMany; create; update; updateMany; upsert; delete; deleteMany].

Definition action_of_name (key : string) : option ModelAction :=
  list_find (λ a, action_name a = key) ModelAction_keys ≫= λ p, Some p.2.

Inductive FieldKind : Set := scalar | object | enum.

#[global] Instance FieldKind_eq_dec : EqDecision FieldKind.
Proof. solve_decision. Defined.

(** A datamodel field ([BaseField]). *)
Record Field : Type := {
  field_name : string;
  field_kind : FieldKind;
  field_type : string;
  field_isList : bool;
  field_isRequired : bool;
}.

Record Model : Type := {
  model_name : string;
  model_fields : list Field;
}.

Record Enum : Type := {
  enum_name : string;
  enum_values : list string;
}.

(** The [type] member of an output or input type reference: the name
    of a scalar, or (after [DMMFClass] has resolved the names) the
    object of a named type, of which only [name] is read. *)
Inductive TypeRef : Type :=
  | TString (s : string)
  | TNamed (name : string).

(** [t.name] of a [TypeRef]; a string has no such member. *)
Definition TypeRef_name (t : TypeRef) : string :=
  match t with TNamed n => n | TString _ => "undefined" end.

(** [SchemaArgInputType]. *)
Record ArgType : Type := {
  arg_type : TypeRef;
  arg_kind : FieldKind;
  arg_isRequired : bool;
  arg_isNullable : bool;
  arg_isList : bool;
}.

Record SchemaArg : Type := {
  arg_name : string;
  arg_inputType : list ArgType;
  arg_comment : option string;
}.

(** [SchemaField.outputType]. *)
Record SchemaFieldOutputType : Type := {
  out_type : TypeRef;
  out_kind : FieldKind;
  out_isList : bool;
  out_isRequired : bool;
}.

Record SchemaField (A : Type) : Type := {
  sfield_name : string;
  sfield_outputType : SchemaFieldOutputType;
  sfield_args : list A;
}.
Arguments sfield_name {A} _.
Arguments sfield_outputType {A} _.
Arguments sfield_args {A} _.

Record OutputType (A : Type) : Type := {
  otype_name : string;
  otype_fields : list (SchemaField A);
}.
Arguments otype_name {A} _.
Arguments otype_fields {A} _.

Record InputType (A : Type) : Type := {
  itype_name : string;
  itype_fields : list A;
}.
Arguments itype_name {A} _.
Arguments itype_fields {A} _.

(** [DMMF.Mapping]: [model], [plural], and one optional server field
    name per action (and for [aggregate]), in the order of the
    object's own keys. *)
Record Mapping : Type := {
  mapping_model : string;
  mapping_plural : string;
  mapping_actions : list (string * option string);
}.

(** [Object.entries(mapping)] *)
Definition Mapping_entries (m : Mapping) : list (string * option string) :=
  ("model", Some (mapping_model m)) :: ("plural", Some (mapping_plural m))
    :: mapping_actions m.

(** [mapping[key]] *)
Definition Mapping_get (m : Mapping) (key : string) : option string :=
  (list_find (λ e, e.1 = key) (Mapping_entries m)) ≫= λ p, p.2.2.

(** [DMMF.Document] *)
Record Document (A : Type) : Type := {
  datamodel_models : list Model;
  schema_enums : list Enum;
  schema_outputTypes : list (OutputType A);
  schema_inputTypes : list (InputType A);
  mappings : list Mapping;
}.
Arguments datamodel_models {A} _.
Arguments schema_enums {A} _.
Arguments schema_outputTypes {A} _.
Arguments schema_inputTypes {A} _.
Arguments mappings {A} _.

End DMMF.
Import DMMF.

(** ** What the generator imports

  [./utils], [../runtime/utils/common] and the npm packages
  [indent-string] and [pluralize] are not part of the generator; the
  development is parametric in them. *)

(** [Projection] of [./utils]; the enumeration's values are its keys. *)
Inductive Projection : Set := Projection_select | Projection_include.

#[global] Instance Projection_eq_dec : EqDecision Projection.
Proof. solve_decision. Defined.

Definition Projection_name (p : Projection) : string :=
  match p with Projection_select => "select" | Projection_include => "include" end.

(** An entry of [GraphQLScalarToJSTypeTable]: a type name, or an array
  of type names. *)
Inductive JSType : Type :=
  | Str (s : string)
  | Arr (l : list string).

(** The options object of [getSelectReturnType]. *)
Record SelectReturnTypeOptions : Type := {
  opt_name : string;
  opt_actionName : ModelAction;
  opt_renderPromise : option bool;
  opt_hideCondition : option bool;
  opt_isField : option bool;
  opt_fieldName : option string;
  opt_projection : option Projection;
}.

Class Utils : Type := {
  (* ./utils *)
  getPayloadName : string → string;
  getSelectName : string → string;
  getIncludeName : string → string;
  getModelArgName : string → option ModelAction → string;
  getArgName : string → bool → string;
  getFieldArgName : ∀ {A : Type}, SchemaField A → string;
  getSelectReturnType : SelectReturnTypeOptions → string;
  (* ../runtime/utils/common *)
  capitalize : string → string;
  lowerCase : string → string;
  GraphQLScalarToJSTypeTable : string → option JSType;
  (* indent-string, pluralize *)
  indent : string → nat → string;
  pluralize : string → string;
}.

(** [arr.find((value) => callee(value) === key)]: the first element of
    [arr] whose key is [key]. *)
Definition firstWith {T : Type} (callee : T → string) (key : string) (arr : list T)
    : option T :=
  snd <$> list_find (λ value, callee value = key) arr.

(** Modelled from the spec: [uniqueBy] of [../runtime/utils/uniqueBy] is
  not among the sources.  Section 3 fixes its policy: when two argument
  fields share the same name, only the first occurrence survives, the
  later ones are discarded, and that is not an error. *)
Fixpoint uniqueBy_from {T : Type} (seen : list string) (arr : list T)
    (callee : T → string) : list T :=
  match arr with
  | [] => []
  | value :: rest =>
      if decide (callee value ∈ seen) then uniqueBy_from seen rest callee
      else value :: uniqueBy_from (callee value :: seen) rest callee
  end.

Definition uniqueBy {T : Type} (arr : list T) (callee : T → string) : list T :=
  uniqueBy_from [] arr callee.

(** ** The generator *)

Section Generator.
Context `{Utils}.

Definition tab : nat := 2.

(** [wrapComment] *)
Definition wrapComment (str : string) : string :=
  "/**
" +:+ JS.join JS.LF ((λ l, " * " +:+ l) <$> JS.split_lines str) +:+ "
**/".

(** *** [InputField] *)

(** [GraphQLScalarToJSTypeTable[name] || name] *)
Definition scalarToJSType (name : string) : JSType :=
  match GraphQLScalarToJSTypeTable name with
  | Some (Str s) => if JS.truthy s then Str s else Str name
  | Some (Arr l) => Arr l
  | None => Str name
  end.

(** The callback handed to [flatMap] in [InputField.toTS]. *)
Definition InputField_candidate (prefixFilter : bool) (t : ArgType) : JSType :=
  match arg_type t with
  | TString s => scalarToJSType s
  | TNamed name => Str (if prefixFilter then "Base" +:+ name else name)
  end.

(** [flatMap(arr, f)] of [./utils]: the results, arrays spliced in. *)
Definition flatMap {T : Type} (arr : list T) (f : T → JSType) : list string :=
  arr ≫= λ t, match f t with Str s => [s] | Arr l => l end.

Definition is_null_literal (t : JSType) : bool :=
  match t with Str s => String.eqb s "null" | Arr _ => false end.

(** [hasNull] after the [flatMap] has run. *)
Definition InputField_hasNull (prefixFilter : bool) (field : SchemaArg) : bool :=
  existsb (λ t, is_null_literal (InputField_candidate prefixFilter t))
          (arg_inputType field).

(** [fieldType] before the list wrapping. *)
Definition InputField_union (prefixFilter : bool) (field : SchemaArg) : string :=
  JS.join " | " (flatMap (arg_inputType field) (InputField_candidate prefixFilter)).

Definition InputField_jsdoc (field : SchemaArg) : string :=
  match arg_comment field with
  | Some comment =>
      if JS.truthy comment then wrapComment comment +:+ JS.LF else ""
  | None => ""
  end.

(** [optionalStr] and [nullableStr], from the first candidate. *)
Definition InputField_optionalStr (fieldInputType : ArgType) : string :=
  if arg_isRequired fieldInputType then "" else "?".

Definition InputField_nullableStr (hasNull : bool) (fieldInputType : ArgType) : string :=
  if negb (arg_isRequired fieldInputType) && negb hasNull
     && arg_isNullable fieldInputType
  then " | null" else "".

(** [new InputField(field, prefixFilter).toTS()].  Reading
    [field.inputType[0].isRequired] of an empty list of candidates is
    a [TypeError]. *)
Definition InputField_toTS (field : SchemaArg) (prefixFilter : bool) : result string :=
  let hasNull := InputField_hasNull prefixFilter field in
  let fieldType := InputField_union prefixFilter field in
  match arg_inputType field with
  | [] => Throw "TypeError: Cannot read property 'isRequired' of undefined"
  | fieldInputType :: _ =>
      let optionalStr := InputField_optionalStr fieldInputType in
      let fieldType :=
        if arg_isList fieldInputType then "Enumerable<" +:+ fieldType +:+ ">"
        else fieldType in
      let nullableStr := InputField_nullableStr hasNull fieldInputType in
      Ok (InputField_jsdoc field +:+ arg_name field +:+ optionalStr +:+ ": "
            +:+ fieldType +:+ nullableStr)
  end.

(** The argument with other candidates. *)
Definition setCandidates (candidates : list ArgType) (field : SchemaArg) : SchemaArg :=
  {| arg_name := arg_name field;
     arg_inputType := candidates;
     arg_comment := arg_comment field |}.

(** *** [OutputField] *)

(** [new OutputField(field).toTS()] for a datamodel field, whose
    [type] is a string. *)
Definition OutputField_fieldType (field : Field) : string :=
  match scalarToJSType (field_type field) with
  | Str s => s
  | Arr l => default "undefined" (head l)
  end.

Definition OutputField_toTS (field : Field) : string :=
  let fieldType := OutputField_fieldType field in
  let arrayStr := if field_isList field then "[]" else "" in
  let nullableStr :=
    if negb (field_isRequired field) && negb (field_isList field)
    then " | null" else "" in
  field_name field +:+ ": " +:+ fieldType +:+ arrayStr +:+ nullableStr.

(** *** [MinimalArgsType] *)

(** The text [MinimalArgsType.toTS] and [ArgsType.toTS] both build
    around the rendered members. *)
Definition argsTypeText (name : string) (action : option ModelAction)
    (members : list string) : string :=
  "
/**
 * " +:+ name +:+ " " +:+ match action with
                         | Some a => action_name a
                         | None => "without action"
                         end +:+ "
 */
export type " +:+ getModelArgName name action +:+ " = {
" +:+ indent (JS.join JS.LF members) tab +:+ "
}
".


Definition actionOrWithout (action : option ModelAction) : string :=
  match action with Some a => action_name a | None => "without action" end.

Definition MinimalArgsType_toTS (args : list SchemaArg) (model : Model)
    (action : option ModelAction) : result string :=
  let name := model_name model in
  members ← mapM (λ arg, InputField_toTS arg false) args;
  Ok ("
/**
 * " +:+ name +:+ " " +:+ actionOrWithout action +:+ "
 */
export type " +:+ getModelArgName name action +:+ " = {
" +:+ indent (JS.join JS.LF members) tab +:+ "
}
").

(** *** [ArgsType] *)

(** [topLevelArgsJsDocs]: per action, the documented argument names
    and their texts.  [updateMany] and [deleteMany] have no entry. *)
Definition topLevelArgsJsDocs (action : ModelAction)
    : option (list (string * (string → string → string))) :=
  match action with
  | findOne => Some
      [("where", λ singular plural, "Filter, which " +:+ singular +:+ " to fetch.")]
  | findMany => Some
      [("where", λ singular plural, "Filter, which " +:+ plural +:+ " to fetch.");
       ("orderBy", λ singular plural,
          "Determine the order of the " +:+ plural +:+ " to fetch.");
       ("skip", λ singular plural, "Skip the first `n` " +:+ plural +:+ ".");
       ("cursor", λ singular plural,
          "Sets the position for listing " +:+ plural +:+ ".");
       ("take", λ singular plural,
          "Get all " +:+ plural +:+ " that come after or before the "
            +:+ singular +:+ " you provide with the current order.")]
  | create => Some
      [("data", λ singular plural,
          "The data needed to create a " +:+ singular +:+ ".")]
  | update => Some
      [("data", λ singular plural,
          "The data needed to update a " +:+ singular +:+ ".");
       ("where", λ singular plural, "Choose, which " +:+ singular +:+ " to update.")]
  | upsert => Some
      [("where", λ singular plural,
          "The filter to search for the " +:+ singular
            +:+ " to update in case it exists.");
       ("create", λ singular plural,
          "In case the " +:+ singular
            +:+ " found by the `where` argument doesn't exist, create a new "
            +:+ singular +:+ " with this data.");
       ("update", λ singular plural,
          "In case the " +:+ singular
            +:+ " was found with the provided `where` argument, update it with this data.")]
  | delete => Some
      [("where", λ singular plural, "Filter which " +:+ singular +:+ " to delete.")]
  | updateMany | deleteMany => None
  end.

(** [table[name]] for an own key of [table] (the argument names of
    the schema are not names of members of [Object.prototype]). *)
Definition jsDoc_lookup (table : list (string * (string → string → string)))
    (name : string) : option (string → string → string) :=
  snd <$> (list_find (λ e, e.1 = name) table ≫= λ p, Some p.2).

(** The test and the right-hand side of the assignment in the body
    of [args.forEach] in [ArgsType.toTS]: the comment to store in the
    descriptor, if any.  Indexing [topLevelArgsJsDocs[action]] when the
    table has no entry for the action is a [TypeError]. *)
Definition ArgsType_comment (name : string) (action : option ModelAction)
    (arg : SchemaArg) : result (option string) :=
  match action with
  | None => Ok None
  | Some a =>
      match topLevelArgsJsDocs a with
      | None => Throw "TypeError: Cannot read property of undefined"
      | Some table =>
          Ok ((λ text, text name (pluralize name)) <$> jsDoc_lookup table (arg_name arg))
      end
  end.

(** [arg.comment = comment] *)
Definition setComment (comment : string) (arg : SchemaArg) : SchemaArg :=
  {| arg_name := arg_name arg;
     arg_inputType := arg_inputType arg;
     arg_comment := Some comment |}.

(** The body of [args.forEach], as a function on the content of the
    descriptor. *)
Definition ArgsType_annotate (name : string) (action : option ModelAction)
    (arg : SchemaArg) : result SchemaArg :=
  comment ← ArgsType_comment name action arg;
  Ok (match comment with Some comment => setComment comment arg | None => arg end).

Definition hasRelationField (model : Model) : bool :=
  existsb (λ f, bool_decide (field_kind f = object)) (model_fields model).

Definition selectArg (name : string) : SchemaArg :=
  {| arg_name := "select";
     arg_inputType :=
       [{| arg_type := TString (getSelectName name);
           arg_kind := object;
           arg_isList := false;
           arg_isRequired := false;
           arg_isNullable := true |}];
     arg_comment := Some ("Select specific fields to fetch from the " +:+ name) |}.

Definition includeArg (name : string) : SchemaArg :=
  {| arg_name := "include";
     arg_inputType :=
       [{| arg_type := TString (getIncludeName name);
           arg_kind := object;
           arg_isList := false;
           arg_isRequired := false;
           arg_isNullable := true |}];
     arg_comment := Some "Choose, which related nodes to fetch as well." |}.

(** [bothArgsOptional] once [...args] has been pushed. *)
Definition bothArgsOptional (model : Model) (args : list SchemaArg) : list SchemaArg :=
  let name := model_name model in
  [selectArg name]
    ++ (if hasRelationField model then [includeArg name] else [])
    ++ args.

(** The template of [ArgsType.toTS] over the descriptors as they are
    after the [forEach]. *)
Definition ArgsType_render (args : list SchemaArg) (model : Model)
    (action : option ModelAction) : result string :=
  let name := model_name model in
  members ← mapM (λ arg, InputField_toTS arg false) (bothArgsOptional model args);
  Ok ("
/**
 * " +:+ name +:+ " " +:+ actionOrWithout action +:+ "
 */
export type " +:+ getModelArgName name action +:+ " = {
" +:+ indent (JS.join JS.LF members) tab +:+ "
}
").

(** [new ArgsType(args, model, action).toTS()] on descriptors held by
    value. *)
Definition ArgsType_toTS (args : list SchemaArg) (model : Model)
    (action : option ModelAction) : result string :=
  args' ← mapM (ArgsType_annotate (model_name model) action) args;
  ArgsType_render args' model action.

(** *** [InputType] *)

Definition InputType_fields (type : InputType SchemaArg) : list SchemaArg :=
  uniqueBy (itype_fields type) arg_name.

Definition InputType_toTS (type : InputType SchemaArg) : result string :=
  let fields := InputType_fields type in
  members ← mapM (λ arg, InputField_toTS arg false) fields;
  let body := "{
" +:+ indent (JS.join JS.LF members) tab +:+ "
}" in
  Ok ("
export type " +:+ itype_name type +:+ " = " +:+ body).

(** *** [Enum] *)

Definition Enum_members (type : Enum) : string :=
  indent (JS.join ("," +:+ JS.LF) ((λ v, v +:+ ": '" +:+ v +:+ "'") <$> enum_values type)) tab.

Definition Enum_toJS (type : Enum) : string :=
  "exports." +:+ enum_name type +:+ " = makeEnum({
" +:+ Enum_members type +:+ "
});".

Definition Enum_toTS (type : Enum) : string :=
  "export declare const " +:+ enum_name type +:+ ": {
" +:+ Enum_members type +:+ "
};

export declare type " +:+ enum_name type +:+ " = (typeof " +:+ enum_name type
    +:+ ")[keyof typeof " +:+ enum_name type +:+ "]
".

(** *** [PayloadType] *)

(** [PayloadType.wrapType], for any way [Array<...>] and [... | null]
    are written down. *)
Definition wrapType_with {T A : Type} (array nullable : T → T)
    (field : SchemaField A) (str : T) : T :=
  let outputType := sfield_outputType field in
  if out_isRequired outputType && negb (out_isList outputType) then str
  else if out_isList outputType then array str
  else if negb (out_isRequired outputType) then nullable str
  else str.

Definition PayloadType_wrapType {A : Type} (field : SchemaField A) (str : string) : string :=
  wrapType_with (λ str, "Array<" +:+ str +:+ ">") (λ str, str +:+ " | null") field str.

(** [type.fields.filter((f) => f.outputType.kind === 'object')] *)
Definition relationFields {A : Type} (type : OutputType A) : list (SchemaField A) :=
  filter (λ f, out_kind (sfield_outputType f) = object) (otype_fields type).

(** The type a relation arm applies: the payload type of the related
    model, at the value the selector gives the key. *)
Definition PayloadType_relationPayload {A : Type} (projection : Projection)
    (f : SchemaField A) : string :=
  getPayloadName (TypeRef_name (out_type (sfield_outputType f))) +:+ "<S['" +:+ Projection_name projection +:+ "'][P]>".

(** One arm of the chain of conditionals built in [renderRelations]. *)
Definition PayloadType_relationArm {A : Type} (projection : Projection)
    (f : SchemaField A) : string :=
  "P extends '" +:+ sfield_name f +:+ "'
? " +:+ PayloadType_wrapType f (PayloadType_relationPayload projection f) +:+ " :".

Definition PayloadType_renderRelations {A : Type} (type : OutputType A)
    (projection : Projection) : string :=
  let relations := relationFields type in
  if bool_decide (length relations = 0) && bool_decide (projection = Projection_include)
  then ""
  else
    let selectPrefix :=
      match projection with
      | Projection_select =>
          "P extends keyof " +:+ otype_name type +:+ " ? " +:+ otype_name type +:+ "[P]
: "
      | Projection_include => ""
      end in
    "{
      [P in TrueKeys<S['" +:+ Projection_name projection +:+ "']>]:" +:+ selectPrefix +:+ "
" +:+ indent (JS.join JS.LF (PayloadType_relationArm projection <$> relations)) 6 +:+ " never
    }".

Definition PayloadType_toTS {A : Type} (type : OutputType A) : string :=
  let name := otype_name type in
  let argsName := getArgName name false in
  let include := PayloadType_renderRelations type Projection_include in
  let select := PayloadType_renderRelations type Projection_select in
  "export type " +:+ getPayloadName name +:+ "<
  S extends boolean | null | undefined | " +:+ argsName +:+ ",
  U = keyof S
> = S extends true
  ? " +:+ name +:+ "
  : S extends undefined
  ? never
  : S extends " +:+ argsName +:+ " | " +:+ getModelArgName name (Some findMany) +:+ "
  ? 'include' extends U
    ? " +:+ name +:+ " " +:+ (if JS.truthy include then " & " +:+ include else "") +:+ "
  : 'select' extends U
    ? " +:+ select +:+ "
  : " +:+ name +:+ "
: " +:+ name +:+ "
".

(** *** Method documentation *)

(** [getMethodJSDocBody] *)
Definition getMethodJSDocBody (action : ModelAction) (mapping : Mapping)
    (model : Model) : string :=
  let singular := capitalize (mapping_model mapping) in
  let plural := capitalize (mapping_plural mapping) in
  let firstScalar :=
    snd <$> list_find (λ f, field_kind f = scalar) (model_fields model) in
  let method := "prisma." +:+ lowerCase (mapping_model mapping) +:+ "." +:+ action_name action in
  let argName := getModelArgName (model_name model) (Some action) in
  match action with
  | create =>
      "Create a " +:+ singular +:+ ".
@param {" +:+ argName +:+ "} args - Arguments to create a " +:+ singular +:+ ".
@example
// Create one " +:+ singular +:+ "
const user = await " +:+ method +:+ "({
  data: {
    // ... data to create a " +:+ singular +:+ "
  }
})
"
  | delete =>
      "Delete a " +:+ singular +:+ ".
@param {" +:+ argName +:+ "} args - Arguments to delete one " +:+ singular +:+ ".
@example
// Delete one " +:+ singular +:+ "
const user = await " +:+ method +:+ "({
  where: {
    // ... filter to delete one " +:+ singular +:+ "
  }
})
"
  | deleteMany =>
      "Delete zero or more " +:+ plural +:+ ".
@param {" +:+ argName +:+ "} args - Arguments to filter " +:+ plural +:+ " to delete.
@example
// Delete a few " +:+ plural +:+ "
const { count } = await " +:+ method +:+ "({
  where: {
    // ... provide filter here
  }
})
"
  | findMany =>
      let onlySelect :=
        match firstScalar with
        | Some firstScalar =>
            "
// Only select the `" +:+ field_name firstScalar +:+ "`
const " +:+ lowerCase (mapping_model mapping) +:+ "With" +:+ capitalize (field_name firstScalar) +:+ "Only = await " +:+ method +:+ "({ select: { " +:+ field_name firstScalar +:+ ": true } })"
        | None => ""
        end in
      "Find zero or more " +:+ plural +:+ ".
@param {" +:+ argName +:+ "=} args - Arguments to filter and select certain fields only.
@example
// Get all " +:+ plural +:+ "
const " +:+ mapping_plural mapping +:+ " = await " +:+ method +:+ "()

// Get first 10 " +:+ plural +:+ "
const " +:+ mapping_plural mapping +:+ " = await " +:+ method +:+ "({ first: 10 })
" +:+ onlySelect +:+ "
"
  | findOne =>
      "Find zero or one " +:+ singular +:+ ".
@param {" +:+ argName +:+ "} args - Arguments to find a " +:+ singular +:+ "
@example
// Get one " +:+ singular +:+ "
const " +:+ lowerCase (mapping_model mapping) +:+ " = await " +:+ method +:+ "({
  where: {
    // ... provide filter here
  }
})"
  | update =>
      "Update one " +:+ singular +:+ ".
@param {" +:+ argName +:+ "} args - Arguments to update one " +:+ singular +:+ ".
@example
// Update one " +:+ singular +:+ "
const " +:+ lowerCase (mapping_model mapping) +:+ " = await " +:+ method +:+ "({
  where: {
    // ... provide filter here
  },
  data: {
    // ... provide data here
  }
})
"
  | updateMany =>
      "Update zero or more " +:+ plural +:+ ".
@param {" +:+ argName +:+ "} args - Arguments to update one or more rows.
@example
// Update many " +:+ plural +:+ "
const " +:+ lowerCase (mapping_model mapping) +:+ " = await " +:+ method +:+ "({
  where: {
    // ... provide filter here
  },
  data: {
    // ... provide data here
  }
})
"
  | upsert =>
      "Create or update one " +:+ singular +:+ ".
@param {" +:+ argName +:+ "} args - Arguments to update or create a " +:+ singular +:+ ".
@example
// Update or create a " +:+ singular +:+ "
const " +:+ lowerCase (mapping_model mapping) +:+ " = await " +:+ method +:+ "({
  create: {
    // ... data to create a " +:+ singular +:+ "
  },
  update: {
    // ... in case it already exists, update
  },
  where: {
    // ... the filter for the " +:+ singular +:+ " we want to update
  }
})"
  end.

(** [getMethodJSDoc] *)
Definition getMethodJSDoc (action : ModelAction) (mapping : Mapping)
    (model : Model) : string :=
  wrapComment (getMethodJSDocBody action mapping model).

(** *** [DMMFClass]

    Modelled from the spec: [DMMFClass] of [../runtime/dmmf] is not
    among the sources.  It is the schema model of section 3 as the
    components read it: the entities by name ([modelMap]), their output
    types by name ([outputTypeMap]), the mappings, the input types, and
    the server fields an action mapping refers to, which are the fields
    of the [Query] and of the [Mutation] output type (section 7: a
    mapping that names a field absent from the schema is fatal).  Entity
    names are unique (section 6). *)
Definition DMMFClass (A : Type) : Type := Document A.

(** [Object.values(dmmf.modelMap)] *)
Definition DMMFClass_models {A : Type} (dmmf : DMMFClass A) : list Model :=
  datamodel_models dmmf.

(** [dmmf.modelMap[name]] *)
Definition DMMFClass_modelMap {A : Type} (dmmf : DMMFClass A) (name : string)
    : option Model :=
  snd <$> list_find (λ m, model_name m = name) (datamodel_models dmmf).

(** [dmmf.outputTypeMap[name]] *)
Definition DMMFClass_outputTypeMap {A : Type} (dmmf : DMMFClass A) (name : string)
    : option (OutputType A) :=
  snd <$> list_find (λ t, otype_name t = name) (schema_outputTypes dmmf).

(** [dmmf.mappings.find((m) => m.model === name)] *)
Definition DMMFClass_mapping {A : Type} (dmmf : DMMFClass A) (name : string)
    : option Mapping :=
  snd <$> list_find (λ m, mapping_model m = name) (mappings dmmf).

Definition rootFields {A : Type} (dmmf : DMMFClass A) (root : string)
    : list (SchemaField A) :=
  default [] (otype_fields <$> DMMFClass_outputTypeMap dmmf root).

(** [dmmf.getField(fieldName)] *)
Definition DMMFClass_getField {A : Type} (dmmf : DMMFClass A) (fieldName : string)
    : option (SchemaField A) :=
  snd <$> list_find (λ f, sfield_name f = fieldName)
            (rootFields dmmf "Query" ++ rootFields dmmf "Mutation").

(** *** [ModelDelegate] *)

(** The entries of the mapping that become operations. *)
Definition ModelDelegate_actions (mapping : Mapping) : list (string * option string) :=
  filter (λ e, e.1 ≠ "model" ∧ e.1 ≠ "plural" ∧ e.1 ≠ "aggregate"
               ∧ JS.truthy_opt e.2 = true)
         (Mapping_entries mapping).

(** The text of one operation.  [getMethodJSDocBody] reads
    [model.fields] and has no case for a key that is not an action: a
    missing model or an unknown key is a [TypeError]. *)
Definition ModelDelegate_method (name : string) (mapping : Mapping)
    (model : option Model) (actionName : string) : result string :=
  match model, action_of_name actionName with
  | None, _ => Throw "TypeError: Cannot read property 'fields' of undefined"
  | Some _, None => Throw "TypeError: Cannot read property 'split' of undefined"
  | Some model, Some action =>
      Ok (getMethodJSDoc action mapping model +:+ "
" +:+ actionName +:+ "<T extends " +:+ getModelArgName name (Some action) +:+ ">(
  args" +:+ (if decide (action = findMany) then "?" else "") +:+ ": Subset<T, " +:+ getModelArgName name (Some action) +:+ ">
): " +:+ getSelectReturnType
            {| opt_name := name; opt_actionName := action;
               opt_renderPromise := None; opt_hideCondition := None;
               opt_isField := None; opt_fieldName := None;
               opt_projection := Some Projection_select |})
  end.

(** The text of the operation for one entry of the mapping. *)
Definition delegateOperation {A : Type} (outputType : OutputType A) (dmmf : DMMFClass A)
    (mapping : Mapping) (e : string * option string) : result string :=
  ModelDelegate_method (otype_name outputType) mapping
    (DMMFClass_modelMap dmmf (otype_name outputType)) e.1.

(** The [count] member that closes the delegate interface. *)
Definition ModelDelegate_count (name : string) : string :=
  "  /**
   * 
   */
  count(args?: Omit<" +:+ getModelArgName name (Some findMany)
    +:+ ", 'select' | 'include'>): Promise<number>".

(** One accessor of the [...Client] class. *)
Definition ModelDelegate_accessor {A : Type} (f : SchemaField A) : string :=
  let fieldTypeName := TypeRef_name (out_type (sfield_outputType f)) in
  "
" +:+ sfield_name f +:+ "<T extends " +:+ getFieldArgName f +:+ " = {}>(args?: Subset<T, " +:+ getFieldArgName f +:+ ">): " +:+ getSelectReturnType
      {| opt_name := fieldTypeName;
         opt_actionName :=
           if out_isList (sfield_outputType f) then findMany else findOne;
         opt_renderPromise := Some true; opt_hideCondition := Some false;
         opt_isField := Some true; opt_fieldName := Some (sfield_name f);
         opt_projection := Some Projection_select |} +:+ ";".

Definition ModelDelegate_toTS {A : Type} (outputType : OutputType A)
    (dmmf : DMMFClass A) : result string :=
  let fields := otype_fields outputType in
  let name := otype_name outputType in
  match DMMFClass_mapping dmmf name with
  | None => Ok ""
  | Some mapping =>
      let model := DMMFClass_modelMap dmmf name in
      let actions := ModelDelegate_actions mapping in
      methods ← mapM (λ e, ModelDelegate_method name mapping model e.1) actions;
      Ok ("export interface " +:+ name +:+ "Delegate {
" +:+ indent (JS.join JS.LF methods) tab +:+ "
  /**
   * 
   */
  count(args?: Omit<" +:+ getModelArgName name (Some findMany) +:+ ", 'select' | 'include'>): Promise<number>
}

export declare class " +:+ name +:+ "Client<T> implements Promise<T> {
  private readonly _dmmf;
  private readonly _fetcher;
  private readonly _queryType;
  private readonly _rootField;
  private readonly _clientMethod;
  private readonly _args;
  private readonly _dataPath;
  private readonly _errorFormat;
  private readonly _measurePerformance?;
  private _isList;
  private _callsite;
  private _requestPromise?;
  private _collectTimestamps?;
  constructor(_dmmf: DMMFClass, _fetcher: PrismaClientFetcher, _queryType: 'query' | 'mutation', _rootField: string, _clientMethod: string, _args: any, _dataPath: string[], _errorFormat: ErrorFormat, _measurePerformance?: boolean | undefined, _isList?: boolean);
  readonly [Symbol.toStringTag]: 'PrismaClientPromise';
" +:+ indent (JS.join JS.LF (ModelDelegate_accessor <$> relationFields outputType)) 2 +:+ "

  private get _document();
  /**
   * Attaches callbacks for the resolution and/or rejection of the Promise.
   * @param onfulfilled The callback to execute when the Promise is resolved.
   * @param onrejected The callback to execute when the Promise is rejected.
   * @returns A Promise for the completion of which ever callback is executed.
   */
  then<TResult1 = T, TResult2 = never>(onfulfilled?: ((value: T) => TResult1 | Promise<TResult1>) | undefined | null, onrejected?: ((reason: any) => TResult2 | Promise<TResult2>) | undefined | null): Promise<TResult1 | TResult2>;
  /**
   * Attaches a callback for only the rejection of the Promise.
   * @param onrejected The callback to execute when the Promise is rejected.
   * @returns A Promise for the completion of the callback.
   */
  catch<TResult = never>(onrejected?: ((reason: any) => TResult | Promise<TResult>) | undefined | null): Promise<T | TResult>;
  /**
   * Attaches a callback that is invoked when the Promise is settled (fulfilled or rejected). The
   * resolved value cannot be modified from the callback.
   * @param onfinally The callback to execute when the Promise is settled (fulfilled or rejected).
   * @returns A Promise for the completion of the callback.
   */
  finally(onfinally?: (() => void) | undefined | null): Promise<T>;
}")
  end.

(** *** [Model] *)

(** The objects [Model.argsTypes] creates. *)
Inductive ArgsGeneratable (A : Type) : Type :=
  | MinimalArgsType (args : list A) (model : Model) (action : option ModelAction)
  | ArgsType (args : list A) (model : Model) (action : option ModelAction).
#[global] Arguments MinimalArgsType {A} args model action.
#[global] Arguments ArgsType {A} args model action.

(** The descriptors an object of [argsTypes] holds. *)
Definition argsOf {A : Type} (gen : ArgsGeneratable A) : list A :=
  match gen with
  | MinimalArgsType args _ _ => args
  | ArgsType args _ _ => args
  end.

(** A [Model] object once its constructor has run. *)
Record ModelGen (A : Type) : Type := {
  gen_model : Model;
  gen_dmmf : DMMFClass A;
  gen_outputType : OutputType A;
  gen_mapping : option Mapping;
}.
#[global] Arguments gen_model {A} _.
#[global] Arguments gen_dmmf {A} _.
#[global] Arguments gen_outputType {A} _.
#[global] Arguments gen_mapping {A} _.

(** [new Model(model, dmmf)]; [new OutputType(undefined)] reads
    [type.name] of [undefined]. *)
Definition Model_new {A : Type} (model : Model) (dmmf : DMMFClass A)
    : result (ModelGen A) :=
  match DMMFClass_outputTypeMap dmmf (model_name model) with
  | None => Throw "TypeError: Cannot read property 'name' of undefined"
  | Some outputType =>
      Ok {| gen_model := model;
            gen_dmmf := dmmf;
            gen_outputType := outputType;
            gen_mapping := DMMFClass_mapping dmmf (model_name model) |}
  end.

(** The body of [for (const action in DMMF.ModelAction)], over the keys
    still to visit. *)
Fixpoint Model_argsTypes_loop {A : Type} (dmmf : DMMFClass A) (mapping : Mapping)
    (model : Model) (actions : list ModelAction) : result (list (ArgsGeneratable A)) :=
  match actions with
  | [] => Ok []
  | action :: actions =>
      match Mapping_get mapping (action_name action) with
      | None => Model_argsTypes_loop dmmf mapping model actions
      | Some fieldName =>
          if negb (JS.truthy fieldName)
          then Model_argsTypes_loop dmmf mapping model actions
          else
            match DMMFClass_getField dmmf fieldName with
            | None =>
                Throw ("Oops this must not happen. Could not find field "
                         +:+ fieldName +:+ " on either Query or Mutation")
            | Some field =>
                let argsType :=
                  if bool_decide (action = updateMany) || bool_decide (action = deleteMany)
                  then MinimalArgsType (sfield_args field) model (Some action)
                  else ArgsType (sfield_args field) model (Some action) in
                rest ← Model_argsTypes_loop dmmf mapping model actions;
                Ok (argsType :: rest)
            end
      end
  end.

(** [get argsTypes()] *)
Definition Model_argsTypes {A : Type} (this : ModelGen A)
    : result (list (ArgsGeneratable A)) :=
  match gen_mapping this with
  | None => Ok []
  | Some mapping =>
      argsTypes ← Model_argsTypes_loop (gen_dmmf this) mapping (gen_model this)
                    ModelAction_keys;
      Ok (argsTypes ++ [ArgsType [] (gen_model this) None])
  end.

(** The server field the mapping gives an action: [mapping[action]]
    when it is truthy. *)
Definition mappedFieldName (mapping : Mapping) (action : ModelAction) : option string :=
  Mapping_get mapping (action_name action) ≫= λ fieldName,
    if JS.truthy fieldName then Some fieldName else None.

(** The object [argsTypes] creates for a mapped action. *)
Definition argsTypeOf {A : Type} (model : Model) (action : ModelAction)
    (field : SchemaField A) : ArgsGeneratable A :=
  match action with
  | updateMany | deleteMany => MinimalArgsType (sfield_args field) model (Some action)
  | _ => ArgsType (sfield_args field) model (Some action)
  end.

(** [TS(gen)] for the objects of [argsTypes], descriptors held by value. *)
Definition TS (gen : ArgsGeneratable SchemaArg) : result string :=
  match gen with
  | MinimalArgsType args model action => MinimalArgsType_toTS args model action
  | ArgsType args model action => ArgsType_toTS args model action
  end.

(** A member of the [...Select] and [...Include] types. *)
Definition Model_selectMember {A : Type} (f : SchemaField A) : string :=
  sfield_name f +:+ "?: boolean"
    +:+ (if bool_decide (out_kind (sfield_outputType f) = object)
         then " | " +:+ getFieldArgName f else "").

Definition Model_includeType {A : Type} (model : Model) (outputType : OutputType A)
    : string :=
  if hasRelationField model
  then "
export type " +:+ getIncludeName (model_name model) +:+ " = {
" +:+ indent (JS.join JS.LF (Model_selectMember <$> relationFields outputType)) tab +:+ "
}
"
  else "".

(** The plain value type of the model: its fields that are no
    relations. *)
Definition Model_valueFields (model : Model) : list Field :=
  filter (λ f, field_kind f ≠ object) (model_fields model).

(** The template of [Model.toTS], over the texts of the parts. *)
Definition Model_template {A : Type} (model : Model) (outputType : OutputType A)
    (payloadType delegate : string) (argsTypes : list string) : string :=
  let includeType := Model_includeType model outputType in
  "
/**
 * Model " +:+ model_name model +:+ "
 */

export type " +:+ model_name model +:+ " = {
" +:+ indent (JS.join JS.LF (OutputField_toTS <$> Model_valueFields model)) tab +:+ "
}

export type " +:+ getSelectName (model_name model) +:+ " = {
" +:+ indent (JS.join JS.LF (Model_selectMember <$> otype_fields outputType)) tab +:+ "
}
" +:+ includeType +:+ "
" +:+ payloadType +:+ "

" +:+ delegate +:+ "

// Custom InputTypes
" +:+ JS.join JS.LF argsTypes +:+ "
".

Definition Model_toTS (this : ModelGen SchemaArg) : result string :=
  let model := gen_model this in
  let outputType := gen_outputType this in
  delegate ← ModelDelegate_toTS outputType (gen_dmmf this);
  argsTypes ← Model_argsTypes this;
  texts ← mapM TS argsTypes;
  Ok (Model_template model outputType (PayloadType_toTS outputType) delegate texts).

(** *** The client class and the fixed prelude *)

Record InternalDatasource : Type := { datasource_name : string }.

(** [new Datasources(internalDatasources).toTS()] *)
Definition Datasources_toTS (internalDatasources : list InternalDatasource) : string :=
  let sources := internalDatasources in
  "export type Datasources = {
" +:+ indent (JS.join JS.LF ((λ s, datasource_name s +:+ "?: string") <$> sources)) 2 +:+ "
}".

(** [PrismaClientClass.jsDoc]; [dmmf.mappings[0]] is [undefined] when
    there is no mapping. *)
Definition PrismaClientClass_jsDoc {A : Type} (dmmf : DMMFClass A) : result string :=
  match mappings dmmf with
  | [] => Throw "TypeError: Cannot read property 'plural' of undefined"
  | example :: _ =>
      Ok ("/**
 * ##  Prisma Client ʲˢ
 * 
 * Type-safe database client for TypeScript & Node.js (ORM replacement)
 * @example
 * ```
 * const prisma = new PrismaClient()
 * // Fetch zero or more " +:+ capitalize (mapping_plural example) +:+ "
 * const " +:+ lowerCase (mapping_plural example) +:+ " = await prisma." +:+ lowerCase (mapping_model example) +:+ ".findMany()
 * ```
 *
 * 
 * Read more in our [docs](https://github.com/prisma/prisma/blob/master/docs/prisma-client-js/api.md).
 */")
  end.

(** The getter of one delegate. *)
Definition PrismaClientClass_getter (m : Mapping) : string :=
  let methodName := lowerCase (mapping_model m) in
  "/**
 * `prisma." +:+ methodName +:+ "`: Exposes CRUD operations for the **" +:+ mapping_model m +:+ "** model.
  * Example usage:
  * ```ts
  * // Fetch zero or more " +:+ capitalize (mapping_plural m) +:+ "
  * const " +:+ lowerCase (mapping_plural m) +:+ " = await prisma." +:+ methodName +:+ ".findMany()
  * ```
  */
get " +:+ methodName +:+ "(): " +:+ mapping_model m +:+ "Delegate;".

Definition PrismaClientClass_toTS {A : Type} (dmmf : DMMFClass A)
    (internalDatasources : list InternalDatasource) : result string :=
  jsDoc ← PrismaClientClass_jsDoc dmmf;
  Ok ("
" +:+ Datasources_toTS internalDatasources +:+ "

export type ErrorFormat = 'pretty' | 'colorless' | 'minimal'

export interface PrismaClientOptions {
  /**
   * Overwrites the datasource url from your prisma.schema file
   */
  datasources?: Datasources

  /**
   * @default " +:+ JS.DQ +:+ "colorless" +:+ JS.DQ +:+ "
   */
  errorFormat?: ErrorFormat

  /**
   * @example
   * ```
   * // Defaults to stdout
   * log: ['query', 'info', 'warn']
   * 
   * // Emit as events
   * log: [
   *  { emit: 'stdout', level: 'query' },
   *  { emit: 'stdout', level: 'info' },
   *  { emit: 'stdout', level: 'warn' }
   * ]
   * ```
   * Read more in our [docs](https://www.prisma.io/docs/reference/tools-and-interfaces/prisma-client/logging#the-log-option).
   */
  log?: Array<LogLevel | LogDefinition>

  /**
   * You probably don't want to use this. `__internal` is used by internal tooling.
   */
  __internal?: {
    debug?: boolean
    hooks?: Hooks
    engine?: {
      cwd?: string
      binaryPath?: string
    }
    measurePerformance?: boolean
  }
}

export type Hooks = {
  beforeRequest?: (options: {query: string, path: string[], rootField?: string, typeName?: string, document: any}) => any
}

/* Types for Logging */
export type LogLevel = 'info' | 'query' | 'warn'
export type LogDefinition = {
  level: LogLevel
  emit: 'stdout' | 'event'
}

export type GetLogType<T extends LogLevel | LogDefinition> = T extends LogDefinition ? T['emit'] extends 'event' ? T['level'] : never : never
export type GetEvents<T extends Array<LogLevel | LogDefinition>> = GetLogType<T[0]> | GetLogType<T[1]> | GetLogType<T[2]>

export type QueryEvent = {
  timestamp: Date
  query: string
  params: string
  duration: number
  target: string
}

export type LogEvent = {
  timestamp: Date
  message: string
  target: string
}
/* End Types for Logging */

// tested in getLogLevel.test.ts
export declare function getLogLevel(log: Array<LogLevel | LogDefinition>): LogLevel | undefined;

" +:+ jsDoc +:+ "
export declare class PrismaClient<T extends PrismaClientOptions = {}, U = keyof T extends 'log' ? T['log'] extends Array<LogLevel | LogDefinition> ? GetEvents<T['log']> : never : never> {
  /**
   * @private
   */
  private fetcher;
  /**
   * @private
   */
  private readonly dmmf;
  /**
   * @private
   */
  private connectionPromise?;
  /**
   * @private
   */
  private disconnectionPromise?;
  /**
   * @private
   */
  private readonly engineConfig;
  /**
   * @private
   */
  private readonly measurePerformance;
  /**
   * @private
   */
  private engine: Engine;
  /**
   * @private
   */
  private errorFormat: ErrorFormat;

" +:+ indent jsDoc tab +:+ "
  constructor(optionsArg?: T);
  on<V extends U>(eventType: V, callback: V extends never ? never : (event: V extends 'query' ? QueryEvent : LogEvent) => void): void;
  /**
   * Connect with the database
   */
  connect(): Promise<void>;
  /**
   * @private
   */
  private runDisconnect;
  /**
   * Disconnect from the database
   */
  disconnect(): Promise<any>;
  /**
   * Makes a raw query
   * @example
   * ```
   * // With parameters use prisma.raw``, values will be escaped automatically
   * const result = await prisma.raw`SELECT * FROM User WHERE id = ${1} OR email = ${'ema.il'};`
   * // Or
   * const result = await prisma.raw('SELECT * FROM User WHERE id = $1 OR email = $2;', 1, 'ema.il')
  * ```
  * 
  * Read more in our [docs](https://github.com/prisma/prisma/blob/master/docs/prisma-client-js/api.md#raw-database-access).
  */
  raw<T = any>(query: string | TemplateStringsArray, ...values: any[]): Promise<T>;

" +:+ indent (JS.join (JS.LF +:+ JS.LF)
              (PrismaClientClass_getter
                 <$> filter (λ m, JS.truthy_opt (Mapping_get m "findMany") = true)
                       (mappings dmmf))) 2 +:+ "
}").

Definition commonCodeTS (runtimePath clientVersion engineVersion : string) : string :=
  "import {
  DMMF,
  DMMFClass,
  Engine,
  PrismaClientKnownRequestError,
  PrismaClientUnknownRequestError,
  PrismaClientRustPanicError,
  PrismaClientInitializationError,
  PrismaClientValidationError,
  sqltag as sql,
  empty,
  join,
  raw,
} from '" +:+ runtimePath +:+ "';

export { PrismaClientKnownRequestError }
export { PrismaClientUnknownRequestError }
export { PrismaClientRustPanicError }
export { PrismaClientInitializationError }
export { PrismaClientValidationError }

/**
 * Re-export of sql-template-tag
 */
export { sql, empty, join, raw }

/**
 * Prisma Client JS version: " +:+ clientVersion +:+ "
 * Query Engine version: " +:+ engineVersion +:+ "
 */
export declare type PrismaVersion = {
  client: string
}

export declare const prismaVersion: PrismaVersion 

/**
 * Utility Types
 */

/**
 * From https://github.com/sindresorhus/type-fest/
 * Matches a JSON object.
 * This type can be useful to enforce some input to be JSON-compatible or as a super-type to be extended from. 
 */
declare type JsonObject = {[Key in string]?: JsonValue}
 
/**
 * From https://github.com/sindresorhus/type-fest/
 * Matches a JSON array.
 */
declare interface JsonArray extends Array<JsonValue> {}
 
/**
 * From https://github.com/sindresorhus/type-fest/
 * Matches any valid JSON value.
 */
declare type JsonValue = string | number | boolean | null | Date | JsonObject | JsonArray
 
declare type SelectAndInclude = {
  select: any
  include: any
}

declare type HasSelect = {
  select: any
}

declare type HasInclude = {
  include: any
}

declare type CheckSelect<T, S, U> = T extends SelectAndInclude
  ? 'Please either choose `select` or `include`'
  : T extends HasSelect
  ? U
  : T extends HasInclude
  ? U
  : S

/**
 * Get the type of the value, that the Promise holds.
 */
export declare type PromiseType<T extends PromiseLike<any>> = T extends PromiseLike<infer U> ? U : T;

/**
 * Get the return type of a function which returns a Promise.
 */
export declare type PromiseReturnType<T extends (...args: any) => Promise<any>> = PromiseType<ReturnType<T>>


export declare type Enumerable<T> = T | Array<T>;

export declare type TrueKeys<T> = {
  [key in keyof T]: T[key] extends false | undefined | null ? never : key
}[keyof T]

/**
 * Subset
 * @desc From `T` pick properties that exist in `U`. Simple version of Intersection
 */
export declare type Subset<T, U> = {
  [key in keyof T]: key extends keyof U ? T[key] : never;
};
declare class PrismaClientFetcher {
  private readonly prisma;
  private readonly debug;
  private readonly hooks?;
  constructor(prisma: PrismaClient<any, any>, debug?: boolean, hooks?: Hooks | undefined);
  request<T>(document: any, dataPath?: string[], rootField?: string, typeName?: string, isList?: boolean, callsite?: string, collectTimestamps?: any): Promise<T>;
  sanitizeMessage(message: string): string;
  protected unpack(document: any, data: any, path: string[], rootField?: string, isList?: boolean): any;
}
".

(** *** [TSClient] *)

(** The object [toJS] hands to [JSON.stringify] as [config]. *)
Record ClientConfig : Type := {
  config_generator : option string;
  config_sqliteDatasourceOverrides : option string;
  config_relativePath : string;
  config_internalDatasources : list InternalDatasource;
  config_clientVersion : string;
}.

(** [JSON.stringify] and [path.relative] of the platform. *)
Class Platform : Type := {
  JSON_stringify_document : Document SchemaArg → string;
  JSON_stringify_string : string → string;
  JSON_stringify_config : ClientConfig → string;
  path_relative : string → string → string;
}.

(** [TSClientOptions]; [generator] and [sqliteDatasourceOverrides] are
    only passed on. *)
Record TSClientOptions (A : Type) : Type := {
  clientVersion : string;
  engineVersion : string;
  document : Document A;
  runtimePath : string;
  browser : option bool;
  datasources : list InternalDatasource;
  generator : option string;
  platforms : option (list string);
  sqliteDatasourceOverrides : option string;
  schemaDir : string;
  outputDir : string;
}.
#[global] Arguments clientVersion {A} _.
#[global] Arguments engineVersion {A} _.
#[global] Arguments document {A} _.
#[global] Arguments runtimePath {A} _.
#[global] Arguments browser {A} _.
#[global] Arguments datasources {A} _.
#[global] Arguments generator {A} _.
#[global] Arguments platforms {A} _.
#[global] Arguments sqliteDatasourceOverrides {A} _.
#[global] Arguments schemaDir {A} _.
#[global] Arguments outputDir {A} _.

(** A [TSClient] object once its constructor has run. *)
Record TSClient (A : Type) : Type := {
  options : TSClientOptions A;
  dmmfString : string;
  dmmf : DMMFClass A;
}.
#[global] Arguments options {A} _.
#[global] Arguments dmmfString {A} _.
#[global] Arguments dmmf {A} _.

Definition backslash : ascii := ascii_of_nat 92.

(** [str.replace(/\\c/g, '\\\\c')] for a letter [c]: every backslash
    that [c] follows gets a second backslash. *)
Fixpoint escapeLetter (c : ascii) (str : string) : string :=
  match str with
  | EmptyString => EmptyString
  | String a rest =>
      match rest with
      | String b rest' =>
          if Ascii.eqb a backslash && Ascii.eqb b c
          then String backslash (String backslash (String c (escapeLetter c rest')))
          else String a (escapeLetter c rest)
      | EmptyString => String a EmptyString
      end
  end.

(** [escapeJson] *)
Definition escapeJson (str : string) : string :=
  escapeLetter "t" (escapeLetter "r" (escapeLetter "n" str)).

Definition commonCodeJS (runtimePath clientVersion engineVersion : string) : string :=
  "
Object.defineProperty(exports, " +:+ JS.DQ +:+ "__esModule" +:+ JS.DQ +:+ ", { value: true });

const {
  PrismaClientKnownRequestError,
  PrismaClientUnknownRequestError,
  PrismaClientRustPanicError,
  PrismaClientInitializationError,
  PrismaClientValidationError,
  getPrismaClient,
  debugLib,
  sqltag
} = require('" +:+ runtimePath +:+ "')

const path = require('path')
const debug = debugLib('prisma-client')

debug(" +:+ JS.DQ +:+ "Client Version " +:+ clientVersion +:+ JS.DQ +:+ ")
debug(" +:+ JS.DQ +:+ "Engine Version " +:+ engineVersion +:+ JS.DQ +:+ ")

/**
 * Prisma Client JS version: " +:+ clientVersion +:+ "
 * Query Engine version: " +:+ engineVersion +:+ "
 */
exports.prismaVersion = {
  client: " +:+ JS.DQ +:+ clientVersion +:+ JS.DQ +:+ ",
  engine: " +:+ JS.DQ +:+ engineVersion +:+ JS.DQ +:+ "
}

exports.PrismaClientKnownRequestError = PrismaClientKnownRequestError;
exports.PrismaClientUnknownRequestError = PrismaClientUnknownRequestError;
exports.PrismaClientRustPanicError = PrismaClientRustPanicError;
exports.PrismaClientInitializationError = PrismaClientInitializationError;
exports.PrismaClientValidationError = PrismaClientValidationError;

/**
 * Re-export of sql-template-tag
 */

exports.sql = sqltag.sqltag
exports.empty = sqltag.empty
exports.join = sqltag.join
exports.raw = sqltag.raw
".

(** The template of [TSClient.toTS], over the texts of its sections. *)
Definition TSClient_template (prelude clientClass : string)
    (enums models inputTypes : list string) : string :=
  prelude +:+ "

/**
 * Client
**/

" +:+ clientClass +:+ "

" +:+ "" +:+ "

/**
 * Enums
 */

// Based on
// https://github.com/microsoft/TypeScript/issues/3192#issuecomment-261720275

" +:+ JS.join (JS.LF +:+ JS.LF) enums +:+ "

" +:+ JS.join JS.LF models +:+ "

/**
 * Deep Input Types
 */

" +:+ JS.join JS.LF inputTypes +:+ "

/**
 * Batch Payload for updateMany & deleteMany
 */

export type BatchPayload = {
  count: number
}

/**
 * DMMF
 */
export declare const dmmf: DMMF.Document;
export {};
".

Section WithPlatform.
Context `{Platform}.

(** [TSClient.toJS] *)
Definition TSClient_toJS {A : Type} (this : TSClient A) : string :=
  let config :=
    {| config_generator := generator (options this);
       config_sqliteDatasourceOverrides := sqliteDatasourceOverrides (options this);
       config_relativePath :=
         path_relative (outputDir (options this)) (schemaDir (options this));
       config_internalDatasources := datasources (options this);
       config_clientVersion := clientVersion (options this) |} in
  commonCodeJS (runtimePath (options this)) (clientVersion (options this))
    (engineVersion (options this)) +:+ "

/**
 * Build tool annotations
 * In order to make `ncc` and `node-file-trace` happy.
**/

" +:+ match platforms (options this) with
      | Some platforms =>
          JS.join JS.LF
            ((λ p, "path.join(__dirname, 'query-engine-" +:+ p +:+ "');") <$> platforms)
      | None => ""
      end +:+ "

/**
 * Annotation for Vercel
**/
path.join(__dirname, 'schema.prisma');

/**
 * Enums
 */
// Based on
// https://github.com/microsoft/TypeScript/issues/3192#issuecomment-261720275
function makeEnum(x) { return x; }

" +:+ JS.join (JS.LF +:+ JS.LF) (Enum_toJS <$> schema_enums (dmmf this)) +:+ "


/**
 * DMMF
 */
const dmmfString = " +:+ JSON_stringify_string (dmmfString this) +:+ "

// We are parsing 2 times, as we want independent objects, because
// DMMFClass introduces circular references in the dmmf object
const dmmf = JSON.parse(dmmfString)
exports.dmmf = JSON.parse(dmmfString)

/**
 * Create the Client
 */

const config = " +:+ JSON_stringify_config config +:+ "
config.document = dmmf
config.dirname = __dirname

const PrismaClient = getPrismaClient(config)
exports.PrismaClient = PrismaClient".

(** [new TSClient(options)] on a document held by value, of which
    [klona] returns an equal document. *)
Definition TSClient_new (opts : TSClientOptions SchemaArg) : TSClient SchemaArg :=
  {| options := opts;
     dmmfString := escapeJson (JSON_stringify_document (document opts));
     dmmf := document opts |}.

End WithPlatform.

(** [TSClient.toTS] on a document held by value. *)
Definition TSClient_toTS (this : TSClient SchemaArg) : result string :=
  clientClass ← PrismaClientClass_toTS (dmmf this) (datasources (options this));
  models ← mapM (λ model, Model_new model (dmmf this) ≫= Model_toTS)
              (DMMFClass_models (dmmf this));
  inputTypes ← mapM InputType_toTS (schema_inputTypes (dmmf this));
  Ok (TSClient_template
        (commonCodeTS (runtimePath (options this)) (clientVersion (options this))
           (engineVersion (options this)))
        clientClass
        (Enum_toTS <$> schema_enums (dmmf this))
        models
        inputTypes).

End Generator.

(** ** The emitted types as functions of a selector

    The declarations the generator emits are themselves programs: the
    conditional types [TrueKeys] and [CheckSelect] of the prelude
    ([commonCodeTS]) and the [...GetPayload] type of every model
    ([PayloadType.toTS]).  They are read here as functions of the type
    argument, for the selectors a call site can write down.  TypeScript
    is taken with [strictNullChecks]. *)

Module TypeLevel.

(** A literal selector: [true], [false], [null], [undefined], or an
    object type.  Of an object only the members [select] and [include]
    matter to the emitted types; each is absent ([None]) or present with
    the nested selectors of its keys (no key at all when the member is
    [null]). *)
Inductive Selector : Type :=
  | SelTrue
  | SelFalse
  | SelNull
  | SelUndefined
  | SelArgs (select include : option (list (string * Selector))).

(** The types a payload type evaluates to. *)
Inductive Ty : Type :=
  | TyNever
  | TyLiteral (text : string)
  | TyModel (name : string)
  | TyIndexed (name key : string)
  | TyMapped (members : list (string * Ty))
  | TyIntersection (left right : Ty)
  | TyArray (element : Ty)
  | TyOrNull (type : Ty)
  | TyUndeclared (name : string).

(** [T extends false | undefined | null], the test of [TrueKeys]. *)
Definition extendsFalsy (T : Selector) : bool :=
  match T with
  | SelFalse | SelUndefined | SelNull => true
  | SelTrue | SelArgs _ _ => false
  end.





Section Payload.
Context {A : Type} (dmmf : DMMFClass A).

(** [S extends ...Args | FindMany...Args], the third test of a payload
    type: TypeScript's assignability of the selector to the argument
    types of the model, which is not computed here. *)
Context (extendsArgs : string → Selector → bool).

(** [keyof Name]: the members of the plain value type [Model.toTS]
    declares. *)
Definition keyofModel (model : Model) : list string :=
  field_name <$> Model_valueFields model.

(** The chain of arms [renderRelations] emits, at the key [P]:
    [P extends 'f' ? wrapType(f, ...GetPayload<S[projection][P]>) :
     ... : never]; [payloadAt name] is [...GetPayload<S[projection][P]>]
    of the model [name]. *)
Definition relationArms (type : OutputType A) (P : string) (payloadAt : string → Ty) : Ty :=
  match firstWith sfield_name P (relationFields type) with
  | Some f =>
      wrapType_with TyArray TyOrNull f
        (payloadAt (TypeRef_name (out_type (sfield_outputType f))))
  | None => TyNever
  end.

(** The member of the mapped type at the key [P]; for [select] the
    arms come after [P extends keyof Name ? Name[P] :]. *)
Definition projectionMember (model : Model) (type : OutputType A)
    (projection : Projection) (P : string) (payloadAt : string → Ty) : Ty :=
  match projection with
  | Projection_select =>
      if bool_decide (P ∈ keyofModel model) then TyIndexed (otype_name type) P
      else relationArms type P payloadAt
  | Projection_include => relationArms type P payloadAt
  end.

(** [...GetPayload<S>] of the model [name], as [PayloadType.toTS]
    declares it. *)
Fixpoint GetPayload (name : string) (S : Selector) {struct S} : Ty :=
  match DMMFClass_modelMap dmmf name, DMMFClass_outputTypeMap dmmf name with
  | Some model, Some type =>
      let mapped projection members :=
        TyMapped
          (omap (λ member : string * Selector,
                   if extendsFalsy member.2 then None
                   else Some (member.1,
                              projectionMember model type projection member.1
                                (λ related, GetPayload related member.2)))
                members) in
      match S with
      | SelTrue => TyModel (otype_name type)
      | SelUndefined => TyNever
      | SelFalse | SelNull => TyModel (otype_name type)
      | SelArgs select include =>
          if extendsArgs name S then
            match include, select with
            | Some members, _ =>
                if bool_decide (relationFields type = [])
                then TyModel (otype_name type)
                else TyIntersection (TyModel (otype_name type))
                       (mapped Projection_include members)
            | None, Some members => mapped Projection_select members
            | None, None => TyModel (otype_name type)
            end
          else TyModel (otype_name type)
      end
  | _, _ => TyUndeclared name
  end.



End Payload.

End TypeLevel.

(** ** A sample instance and a sample schema

    One implementation of the imported helpers, to run the generator on
    examples: names are formed by fixed prefixes and suffixes around the
    model name, and [pluralize] adds an [s].  The helpers are imported
    from modules that are not among the sources; the theorems hold for
    every implementation of them, and only the examples run this one. *)

Module Sample.

Definition mapFirst (f : ascii → ascii) (s : string) : string :=
  match s with
  | EmptyString => EmptyString
  | String c rest => String (f c) rest
  end.

Definition upper (c : ascii) : ascii :=
  let n := nat_of_ascii c in
  if (97 <=? n)%nat && (n <=? 122)%nat then ascii_of_nat (n - 32) else c.

Definition lower (c : ascii) : ascii :=
  let n := nat_of_ascii c in
  if (65 <=? n)%nat && (n <=? 90)%nat then ascii_of_nat (n + 32) else c.

Definition payloadName (modelName : string) : string := modelName +:+ "GetPayload".

Definition modelArgName (modelName : string) (action : option ModelAction) : string :=
  match action with
  | None => modelName +:+ "Args"
  | Some findMany => "FindMany" +:+ modelName +:+ "Args"
  | Some findOne => "FindOne" +:+ modelName +:+ "Args"
  | Some upsert => modelName +:+ "UpsertArgs"
  | Some update => modelName +:+ "UpdateArgs"
  | Some updateMany => modelName +:+ "UpdateManyArgs"
  | Some delete => modelName +:+ "DeleteArgs"
  | Some create => modelName +:+ "CreateArgs"
  | Some deleteMany => modelName +:+ "DeleteManyArgs"
  end.

Definition argName (name : string) (findMany : bool) : string :=
  if findMany then "FindMany" +:+ name +:+ "Args" else name +:+ "Args".

Definition selectReturnType (o : SelectReturnTypeOptions) : string :=
  let name := opt_name o in
  let isList := bool_decide (opt_actionName o = findMany) in
  let renderPromise := default true (opt_renderPromise o) in
  let hideCondition := default false (opt_hideCondition o) in
  let orNull := if bool_decide (opt_actionName o = findOne) then " | null" else "" in
  let listOf (t : string) := if isList then "Array<" +:+ t +:+ ">" else t in
  let promiseOf (t : string) := if renderPromise then "Promise<" +:+ t +:+ ">" else t in
  if bool_decide (opt_actionName o = deleteMany) || bool_decide (opt_actionName o = updateMany)
  then "Promise<BatchPayload>"
  else if isList || hideCondition
  then "CheckSelect<T, " +:+ promiseOf (listOf name) +:+ ", "
         +:+ promiseOf (listOf (payloadName name +:+ "<T>")) +:+ ">"
  else "CheckSelect<T, " +:+ name +:+ "Client<" +:+ listOf name +:+ orNull +:+ ">, "
         +:+ name +:+ "Client<" +:+ listOf (payloadName name +:+ "<T>") +:+ orNull +:+ ">>".

Definition scalarTable (name : string) : option JSType :=
  if String.eqb name "String" then Some (Str "string")
  else if String.eqb name "Int" then Some (Str "number")
  else if String.eqb name "Float" then Some (Str "number")
  else if String.eqb name "Boolean" then Some (Str "boolean")
  else if String.eqb name "Long" then Some (Str "number")
  else if String.eqb name "DateTime" then Some (Arr ["Date"; "string"])
  else if String.eqb name "ID" then Some (Str "string")
  else if String.eqb name "UUID" then Some (Str "string")
  else if String.eqb name "Json" then Some (Str "JsonValue")
  else None.

#[local] Instance utils : Utils := {|
  getPayloadName := payloadName;
  getSelectName := λ modelName, modelName +:+ "Select";
  getIncludeName := λ modelName, modelName +:+ "Include";
  getModelArgName := modelArgName;
  getArgName := argName;
  getFieldArgName := λ A field,
    argName (TypeRef_name (out_type (sfield_outputType field)))
            (out_isList (sfield_outputType field));
  getSelectReturnType := selectReturnType;
  capitalize := mapFirst upper;
  lowerCase := mapFirst lower;
  GraphQLScalarToJSTypeTable := scalarTable;
  indent := JS.indent_string;
  pluralize := λ name, name +:+ "s";
|}.

(** The schema of the examples of the design document:
    [Post { id, title, author: User }] and [User { id, email, posts }]. *)

Definition scalarField (name type : string) (required : bool) : Field :=
  {| field_name := name; field_kind := scalar; field_type := type;
     field_isList := false; field_isRequired := required |}.

Definition relationField (name type : string) (isList required : bool) : Field :=
  {| field_name := name; field_kind := object; field_type := type;
     field_isList := isList; field_isRequired := required |}.

Definition Post : Model :=
  {| model_name := "Post";
     model_fields := [scalarField "id" "Int" true; scalarField "title" "String" true;
                      relationField "author" "User" false true] |}.

Definition User : Model :=
  {| model_name := "User";
     model_fields := [scalarField "id" "Int" true; scalarField "email" "String" true;
                      scalarField "name" "String" false;
                      relationField "posts" "Post" true false] |}.

Definition scalarOut {A : Type} (name type : string) (required : bool) : SchemaField A :=
  {| sfield_name := name;
     sfield_outputType := {| out_type := TString type; out_kind := scalar;
                             out_isList := false; out_isRequired := required |};
     sfield_args := [] |}.

Definition relationOut {A : Type} (name type : string) (isList required : bool)
    (args : list A) : SchemaField A :=
  {| sfield_name := name;
     sfield_outputType := {| out_type := TNamed type; out_kind := object;
                             out_isList := isList; out_isRequired := required |};
     sfield_args := args |}.

Definition simpleArg (name : string) (type : TypeRef) (kind : FieldKind)
    (required : bool) : SchemaArg :=
  {| arg_name := name;
     arg_inputType := [{| arg_type := type; arg_kind := kind;
                          arg_isRequired := required; arg_isNullable := false;
                          arg_isList := false |}];
     arg_comment := None |}.

Definition whereArg (type : string) (required : bool) : SchemaArg :=
  simpleArg "where" (TNamed type) object required.

Definition dataArg (type : string) : SchemaArg :=
  simpleArg "data" (TNamed type) object true.

(** Two arguments whose first candidate is the same optional, nullable
    [String]; the second candidate is the literal [null] in one and
    [Int] in the other. *)
Definition optionalString : ArgType :=
  {| arg_type := TString "String"; arg_kind := scalar; arg_isRequired := false;
     arg_isNullable := true; arg_isList := false |}.

Definition requiredCandidate (type : string) : ArgType :=
  {| arg_type := TString type; arg_kind := scalar; arg_isRequired := true;
     arg_isNullable := false; arg_isList := true |}.

Definition stringOrNull : SchemaArg :=
  {| arg_name := "x"; arg_inputType := [optionalString; requiredCandidate "null"];
     arg_comment := None |}.

Definition stringOrInt : SchemaArg :=
  {| arg_name := "x"; arg_inputType := [optionalString; requiredCandidate "Int"];
     arg_comment := None |}.

Definition PostOutput : OutputType SchemaArg :=
  {| otype_name := "Post";
     otype_fields := [scalarOut "id" "Int" true; scalarOut "title" "String" true;
                      relationOut "author" "User" false true []] |}.

Definition UserOutput : OutputType SchemaArg :=
  {| otype_name := "User";
     otype_fields := [scalarOut "id" "Int" true; scalarOut "email" "String" true;
                      scalarOut "name" "String" false;
                      relationOut "posts" "Post" true false
                        [whereArg "PostWhereInput" false]] |}.

Definition Query : OutputType SchemaArg :=
  {| otype_name := "Query";
     otype_fields :=
       [relationOut "findManyPost" "Post" true true [whereArg "PostWhereInput" false];
        relationOut "findOnePost" "Post" false false [whereArg "PostWhereUniqueInput" true];
        relationOut "findManyUser" "User" true true [whereArg "UserWhereInput" false]] |}.

Definition Mutation : OutputType SchemaArg :=
  {| otype_name := "Mutation";
     otype_fields :=
       [relationOut "createOnePost" "Post" false true [dataArg "PostCreateInput"];
        relationOut "updateManyPost" "BatchPayload" false true
          [dataArg "PostUpdateManyMutationInput"; whereArg "PostWhereInput" false]] |}.

Definition PostWhereInput : InputType SchemaArg :=
  {| itype_name := "PostWhereInput";
     itype_fields := [simpleArg "id" (TString "Int") scalar false;
                      simpleArg "title" (TString "String") scalar false] |}.

Definition PostMapping : Mapping :=
  {| mapping_model := "Post"; mapping_plural := "posts";
     mapping_actions := [("findOne", Some "findOnePost"); ("findMany", Some "findManyPost");
                         ("create", Some "createOnePost"); ("update", None);
                         ("updateMany", Some "updateManyPost");
                         ("aggregate", Some "aggregatePost")] |}.

Definition UserMapping : Mapping :=
  {| mapping_model := "User"; mapping_plural := "users";
     mapping_actions := [("findMany", Some "findManyUser")] |}.

Definition blog : Document SchemaArg :=
  {| datamodel_models := [Post; User];
     schema_enums := [{| enum_name := "Role"; enum_values := ["A"; "B"] |}];
     schema_outputTypes := [Query; Mutation; PostOutput; UserOutput];
     schema_inputTypes := [PostWhereInput];
     mappings := [PostMapping; UserMapping] |}.

(** A platform for the examples. *)
Definition platform : Platform := {|
  JSON_stringify_document := λ _, "{}";
  JSON_stringify_string := λ str, JS.DQ +:+ str +:+ JS.DQ;
  JSON_stringify_config := λ _, "{}";
  path_relative := λ _ to, to;
|}.

(** A schema whose only model has no mapping. *)
Definition Team : Model :=
  {| model_name := "Team"; model_fields := [scalarField "id" "Int" true] |}.

Definition TeamOutput : OutputType SchemaArg :=
  {| otype_name := "Team"; otype_fields := [scalarOut "id" "Int" true] |}.

Definition orphan : Document SchemaArg :=
  {| datamodel_models := [Team];
     schema_enums := [];
     schema_outputTypes := [TeamOutput];
     schema_inputTypes := [];
     mappings := [] |}.

(** The options of a client over a document. *)
Definition optionsFor {A : Type} (doc : Document A) : TSClientOptions A :=
  {| clientVersion := "2.0.0"; engineVersion := "e"; document := doc;
     runtimePath := "@prisma/client/runtime"; browser := None;
     datasources := [{| datasource_name := "db" |}]; generator := None;
     platforms := None; sqliteDatasourceOverrides := None;
     schemaDir := "/app/prisma"; outputDir := "/app/node_modules/.prisma/client" |}.

(** An input type that declares [where] twice. *)
Definition twoWheres : InputType SchemaArg :=
  {| itype_name := "PostScalarWhereInput";
     itype_fields := [whereArg "PostWhereInput" false;
                      simpleArg "id" (TString "Int") scalar false;
                      whereArg "PostScalarWhereInput" true] |}.

(** Every object selector is taken to be assignable to the argument
    types; the selectors below are. *)
Definition assignable : string → TypeLevel.Selector → bool := λ _ _, true.

(** The client of the examples. *)
Definition blogClient : TSClient SchemaArg :=
  @TSClient_new platform (optionsFor blog).

End Sample.

(** ** The object store

    Argument descriptors are objects, and [ArgsType.toTS] assigns to
    their [comment] member; that is the only assignment to an object of
    the schema in the generator.  To follow it, a document holds
    locations, and the descriptors live in a store. *)

Module Heap.

Abbreviation loc := positive (only parsing).
Abbreviation store := (gmap positive SchemaArg) (only parsing).

(** A computation that reads and writes the store and may throw; the
    store is kept when it does. *)
Definition Gen (X : Type) : Type := store → result X * store.

#[global] Instance Gen_ret : MRet Gen := λ X x σ, (Ok x, σ).
#[global] Instance Gen_bind : MBind Gen := λ X Y f m σ,
  match m σ with
  | (Ok x, σ') => f x σ'
  | (Throw e, σ') => (Throw e, σ')
  end.

Definition lift {X : Type} (r : result X) : Gen X := λ σ, (r, σ).

(** Reading a member of the object at [l]. *)
Definition read (l : loc) : Gen SchemaArg := λ σ,
  match σ !! l with
  | Some arg => (Ok arg, σ)
  | None => (Throw "no object at this location", σ)
  end.

(** Assigning to a member of the object at [l]. *)
Definition write (l : loc) (arg : SchemaArg) : Gen unit := λ σ,
  (Ok (), <[l := arg]> σ).

(** Creating an object. *)
Definition alloc (arg : SchemaArg) : Gen loc := λ σ,
  let l := fresh (dom σ) in (Ok l, <[l := arg]> σ).

(** Visiting every descriptor of a document, in order. *)
Definition traverse_field {A B : Type} (f : A → Gen B) (field : SchemaField A)
    : Gen (SchemaField B) :=
  args ← mapM f (sfield_args field);
  mret {| sfield_name := sfield_name field;
          sfield_outputType := sfield_outputType field;
          sfield_args := args |}.

Definition traverse_outputType {A B : Type} (f : A → Gen B) (type : OutputType A)
    : Gen (OutputType B) :=
  fields ← mapM (traverse_field f) (otype_fields type);
  mret {| otype_name := otype_name type; otype_fields := fields |}.

Definition traverse_inputType {A B : Type} (f : A → Gen B) (type : InputType A)
    : Gen (InputType B) :=
  fields ← mapM f (itype_fields type);
  mret {| itype_name := itype_name type; itype_fields := fields |}.

Definition traverse {A B : Type} (f : A → Gen B) (doc : Document A)
    : Gen (Document B) :=
  outputTypes ← mapM (traverse_outputType f) (schema_outputTypes doc);
  inputTypes ← mapM (traverse_inputType f) (schema_inputTypes doc);
  mret {| datamodel_models := datamodel_models doc;
          schema_enums := schema_enums doc;
          schema_outputTypes := outputTypes;
          schema_inputTypes := inputTypes;
          mappings := mappings doc |}.

(** The descriptors a document refers to. *)
Definition locs_of_outputType {A : Type} (type : OutputType A) : list A :=
  otype_fields type ≫= sfield_args.

Definition locs_of {A : Type} (doc : Document A) : list A :=
  (schema_outputTypes doc ≫= locs_of_outputType)
    ++ (schema_inputTypes doc ≫= itype_fields).

(** The content of a document: every location replaced by the object
    it holds. *)
Definition deref (doc : Document loc) : Gen (Document SchemaArg) :=
  traverse read doc.

(** The npm package [klona]: a deep copy, every object of the document
    copied into a new one. *)
Definition klona (doc : Document loc) : Gen (Document loc) :=
  traverse (λ l, read l ≫= alloc) doc.

(** [m] assigns to objects of [L] only. *)
Definition frames {X : Type} (L : gset positive) (m : Gen X) : Prop :=
  ∀ (σ : gmap positive SchemaArg) (l : positive),
    l ∉ L → (m σ).2 !! l = σ !! l.

(** [m] creates objects and assigns to none that exists. *)
Definition grows {X : Type} (m : Gen X) : Prop :=
  ∀ σ : gmap positive SchemaArg, σ ⊆ (m σ).2.

(** The objects [m] returns, read off its result by [locs], are new. *)
Definition returns_new {X : Type} (locs : X → list positive) (m : Gen X) : Prop :=
  ∀ (σ : gmap positive SchemaArg) (x : X),
    (m σ).1 = Ok x → Forall (λ l, l ∉ dom σ) (locs x).

(** [m] assigns to nothing and creates nothing. *)
Definition reads {X : Type} (m : Gen X) : Prop :=
  ∀ σ : gmap positive SchemaArg, (m σ).2 = σ.

(** The result of [m] is a function of the objects at [L]. *)
Definition reads_from {X : Type} (L : list positive) (m : Gen X) : Prop :=
  ∀ σ1 σ2 : gmap positive SchemaArg,
    (∀ l, l ∈ L → σ1 !! l = σ2 !! l) → (m σ1).1 = (m σ2).1.

(** What [m] returns, it returns in every store that has the same
    objects and more. *)
Definition stable {X : Type} (m : Gen X) : Prop :=
  ∀ (σ σ' : gmap positive SchemaArg) (x : X),
    (m σ).1 = Ok x → σ ⊆ σ' → (m σ').1 = Ok x.

(** [f] copies: where [g] reads [z] off [x], [f] returns a [y] off
    which [h] reads [z], then and later. *)
Definition copies {X Y Z : Type} (f : X → Gen Y) (g : X → Gen Z) (h : Y → Gen Z)
    : Prop :=
  ∀ (x : X) (σ : gmap positive SchemaArg) (z : Z),
    (g x σ).1 = Ok z →
    ∃ y, (f x σ).1 = Ok y ∧ ∀ σ', (f x σ).2 ⊆ σ' → (h y σ').1 = Ok z.

Section Emission.
Context `{Utils} `{Platform}.

(** [new TSClient(options)] *)
Definition TSClient_new (opts : TSClientOptions loc) : Gen (TSClient loc) :=
  content ← deref (document opts);
  copy ← klona (document opts);
  mret {| options := opts;
          dmmfString := escapeJson (JSON_stringify_document content);
          dmmf := copy |}.

(** The body of [args.forEach] in [ArgsType.toTS]. *)
Definition ArgsType_forEach (name : string) (action : option ModelAction) (l : loc)
    : Gen unit :=
  arg ← read l;
  comment ← lift (ArgsType_comment name action arg);
  match comment with
  | Some comment => write l (setComment comment arg)
  | None => mret ()
  end.

(** [new ArgsType(args, model, action).toTS()] *)
Definition ArgsType_toTS (args : list loc) (model : Model)
    (action : option ModelAction) : Gen string :=
  _ ← mapM (ArgsType_forEach (model_name model) action) args;
  args' ← mapM read args;
  lift (ArgsType_render args' model action).

(** [new MinimalArgsType(args, model, action).toTS()] *)
Definition MinimalArgsType_toTS (args : list loc) (model : Model)
    (action : option ModelAction) : Gen string :=
  args' ← mapM read args;
  lift (MinimalArgsType_toTS args' model action).

(** [TS(gen)] *)
Definition TS (gen : ArgsGeneratable loc) : Gen string :=
  match gen with
  | MinimalArgsType args model action => MinimalArgsType_toTS args model action
  | ArgsType args model action => ArgsType_toTS args model action
  end.

(** [Model.toTS] *)
Definition Model_toTS (this : ModelGen loc) : Gen string :=
  let model := gen_model this in
  let outputType := gen_outputType this in
  delegate ← lift (ModelDelegate_toTS outputType (gen_dmmf this));
  argsTypes ← lift (Model_argsTypes this);
  texts ← mapM TS argsTypes;
  mret (Model_template model outputType (PayloadType_toTS outputType) delegate texts).

(** [InputType.toTS] *)
Definition InputType_toTS (type : InputType loc) : Gen string :=
  type' ← traverse_inputType read type;
  lift (InputType_toTS type').

(** [TSClient.toTS] *)
Definition TSClient_toTS (this : TSClient loc) : Gen string :=
  clientClass ← lift (PrismaClientClass_toTS (dmmf this) (datasources (options this)));
  models ← mapM (λ model, lift (Model_new model (dmmf this)) ≫= Model_toTS)
              (DMMFClass_models (dmmf this));
  inputTypes ← mapM InputType_toTS (schema_inputTypes (dmmf this));
  mret (TSClient_template
          (commonCodeTS (runtimePath (options this)) (clientVersion (options this))
             (engineVersion (options this)))
          clientClass
          (Enum_toTS <$> schema_enums (dmmf this))
          models
          inputTypes).

(** [TSClient.toJS], which reads the options, the enumerations and
    [dmmfString] only. *)
Definition TSClient_toJS (this : TSClient loc) : Gen string :=
  mret (TSClient_toJS this).

(** The two emissions of a client. *)
Inductive Emission : Set := toTS | toJS.

Definition emit (this : TSClient loc) (e : Emission) : Gen string :=
  match e with
  | toTS => TSClient_toTS this
  | toJS => TSClient_toJS this
  end.

(** Any sequence of emissions, each run whether or not an earlier one
    threw; the store after the last one. *)
Definition emissions (this : TSClient loc) (es : list Emission) (σ : store) : store :=
  foldl (λ σ e, (emit this e σ).2) σ es.

End Emission.

End Heap.

(** The document of the examples as the caller holds it: every
    descriptor an object of the store. *)
Module HeapSample.

Definition loaded : result (Document positive) * gmap positive SchemaArg :=
  Heap.traverse Heap.alloc Sample.blog ∅.

Definition callerStore : gmap positive SchemaArg := loaded.2.

Definition callerDocument : Document positive :=
  match loaded.1 with
  | Ok doc => doc
  | Throw _ =>
      {| datamodel_models := []; schema_enums := []; schema_outputTypes := [];
         schema_inputTypes := []; mappings := [] |}
  end.

Definition callerOptions : TSClientOptions positive :=
  Sample.optionsFor callerDocument.

(** A client that works on the caller's document itself, as it would
    without [klona]. *)
Definition sharing : TSClient positive :=
  {| options := callerOptions; dmmfString := ""; dmmf := callerDocument |}.

End HeapSample.

(** * Properties *)

(** ** Field rendering *)

Section FieldFacts.
Context `{Utils}.

Lemma wrapType_with_cases {T A : Type} (array nullable : T → T)
    (field : SchemaField A) (str : T) :
  wrapType_with array nullable field str =
    if out_isList (sfield_outputType field) then array str
    else if out_isRequired (sfield_outputType field) then str
    else nullable str.
Proof.
  unfold wrapType_with.
  by destruct (out_isRequired _), (out_isList _).
Qed.

(** C7.  An output field that is neither required nor a list is
    rendered as [name: type | null]; a list field is rendered as the
    sequence type [name: type[]], with nothing after it, whatever its
    [isRequired] flag; a required field that is no list is rendered
    bare.  [PayloadType.wrapType] treats a relation the same way: a list
    becomes [Array<...>] whatever [isRequired] is, a relation that is
    neither required nor a list gets [ | null], a required one is left
    as it is. *)
Theorem output_field_nullable_and_list_wrapping :
  (∀ field : Field,
     OutputField_toTS field =
       field_name field +:+ ": " +:+ OutputField_fieldType field
         +:+ (if field_isList field then "[]"
              else if field_isRequired field then "" else " | null"))
  ∧ (∀ (A : Type) (field : SchemaField A) (str : string),
       PayloadType_wrapType field str =
         if out_isList (sfield_outputType field) then "Array<" +:+ str +:+ ">"
         else if out_isRequired (sfield_outputType field) then str
         else str +:+ " | null").
Proof.
  split.
  - intros field. unfold OutputField_toTS.
    by destruct (field_isList field), (field_isRequired field).
  - intros A field str. unfold PayloadType_wrapType.
    by rewrite wrapType_with_cases.
Qed.

Lemma InputField_candidate_type (prefixFilter : bool) (t u : ArgType) :
  arg_type t = arg_type u →
  InputField_candidate prefixFilter t = InputField_candidate prefixFilter u.
Proof. unfold InputField_candidate. by intros ->. Qed.

Lemma flatMap_candidate_types (prefixFilter : bool) (l k : list ArgType) :
  arg_type <$> l = arg_type <$> k →
  flatMap l (InputField_candidate prefixFilter) = flatMap k (InputField_candidate prefixFilter)
  ∧ existsb (λ t, is_null_literal (InputField_candidate prefixFilter t)) l
    = existsb (λ t, is_null_literal (InputField_candidate prefixFilter t)) k.
Proof.
  revert k. induction l as [|t l IH]; intros [|u k] Heq; simplify_eq/=; [done|].
  destruct (IH k) as [IH1 IH2]; [done|].
  unfold flatMap in *. cbn.
  rewrite (InputField_candidate_type prefixFilter t u) by done.
  by rewrite IH1, IH2.
Qed.

(** C10 (as amended).  An argument with at least one candidate renders
    as [name], the optional marker, the union of the types of all its
    candidates, the [Enumerable<...>] wrapping and the appended
    [ | null]: the marker and the wrapping come from [isRequired] and
    [isList] of the first candidate, the appended [ | null] from
    [isRequired] and [isNullable] of the first candidate and from
    whether some candidate already is the literal [null].  Replacing the
    later candidates by candidates of the same types and any other flags
    gives the same text. *)
Theorem input_field_flags_of_first_candidate (field : SchemaArg) (prefixFilter : bool) :
  match arg_inputType field with
  | [] => InputField_toTS field prefixFilter
          = Throw "TypeError: Cannot read property 'isRequired' of undefined"
  | first :: rest =>
      InputField_toTS field prefixFilter =
        Ok (InputField_jsdoc field +:+ arg_name field
              +:+ (if arg_isRequired first then "" else "?") +:+ ": "
              +:+ (if arg_isList first
                   then "Enumerable<" +:+ InputField_union prefixFilter field +:+ ">"
                   else InputField_union prefixFilter field)
              +:+ (if negb (arg_isRequired first)
                      && negb (InputField_hasNull prefixFilter field)
                      && arg_isNullable first
                   then " | null" else ""))
      ∧ InputField_union prefixFilter field
        = JS.join " | " (flatMap (first :: rest) (InputField_candidate prefixFilter))
      ∧ ∀ rest' : list ArgType,
          arg_type <$> rest' = arg_type <$> rest →
          InputField_toTS (setCandidates (first :: rest') field) prefixFilter
          = InputField_toTS field prefixFilter
  end.
Proof.
  destruct field as [name candidates comment]; cbn [arg_inputType].
  destruct candidates as [|first rest]; [done|].
  split_and!; [done..|].
  intros rest' Hrest.
  destruct (flatMap_candidate_types prefixFilter (first :: rest') (first :: rest))
    as [Hflat Hnull]; [by rewrite !fmap_cons, Hrest|].
  unfold InputField_toTS, InputField_union, InputField_hasNull, InputField_jsdoc,
    setCandidates.
  cbn [arg_inputType arg_name arg_comment].
  by rewrite Hflat, Hnull.
Qed.

End FieldFacts.

(** ** Input types: duplicate field names *)

Section UniqueBy.
Context {T : Type} (callee : T → string).







End UniqueBy.

Lemma mapM_result_Ok {X Y : Type} (f : X → result Y) (l : list X) :
  Forall (λ x, is_Ok (f x)) l → is_Ok (mapM f l).
Proof.
  induction 1 as [|x l [y Hy] _ [k Hk]]; [by eexists|].
  exists (y :: k). cbn. by rewrite Hy, Hk.
Qed.

Lemma mapM_result_Forall2 {X Y : Type} (f : X → result Y) (l : list X) (k : list Y) :
  mapM f l = Ok k → Forall2 (λ x y, f x = Ok y) l k.
Proof.
  revert k. induction l as [|x l IH]; intros k; cbn.
  { intros [= <-]. constructor. }
  destruct (f x) as [y|] eqn:Hx; [|done]. cbn.
  destruct (mapM f l) as [k'|]; [|done]. cbn.
  intros [= <-]. constructor; [done|by apply IH].
Qed.

Lemma mapM_result_length {X Y : Type} (f : X → result Y) (l : list X) (k : list Y) :
  mapM f l = Ok k → length k = length l.
Proof.
  revert k. induction l as [|x l IH]; intros k; cbn.
  { by intros [= <-]. }
  destruct (f x) as [y|]; [|done]. cbn.
  destruct (mapM f l) as [k'|]; [|done]. cbn.
  intros [= <-]. cbn. f_equal. by apply IH.
Qed.

Section InputTypeFacts.
Context `{Utils}.



End InputTypeFacts.

(** ** Argument types *)

Section ArgsFacts.
Context `{Utils}.

Lemma Model_argsTypes_loop_cons {A : Type} (dmmf : DMMFClass A) (mapping : Mapping)
    (model : Model) (action : ModelAction) (actions : list ModelAction) :
  Model_argsTypes_loop dmmf mapping model (action :: actions) =
    match mappedFieldName mapping action with
    | None => Model_argsTypes_loop dmmf mapping model actions
    | Some fieldName =>
        match DMMFClass_getField dmmf fieldName with
        | None =>
            Throw ("Oops this must not happen. Could not find field "
                     +:+ fieldName +:+ " on either Query or Mutation")
        | Some field =>
            rest ← Model_argsTypes_loop dmmf mapping model actions;
            Ok (argsTypeOf model action field :: rest)
        end
    end.
Proof.
  unfold mappedFieldName. cbn [Model_argsTypes_loop].
  destruct (Mapping_get mapping (action_name action)) as [fieldName|]; [|reflexivity].
  cbn [mbind option_bind].
  destruct (JS.truthy fieldName); [|reflexivity].
  cbn [negb].
  destruct (DMMFClass_getField dmmf fieldName); [|reflexivity].
  destruct action; reflexivity.
Qed.

Lemma Model_argsTypes_loop_Ok {A : Type} (dmmf : DMMFClass A) (mapping : Mapping)
    (model : Model) (actions : list ModelAction) (argsTypes : list (ArgsGeneratable A)) :
  Model_argsTypes_loop dmmf mapping model actions = Ok argsTypes →
  argsTypes =
    omap (λ action, mappedFieldName mapping action ≫= λ fieldName,
                    argsTypeOf model action <$> DMMFClass_getField dmmf fieldName)
         actions.
Proof.
  revert argsTypes. induction actions as [|action actions IH]; intros argsTypes.
  { by intros [= <-]. }
  rewrite Model_argsTypes_loop_cons. cbn [omap list_omap].
  destruct (mappedFieldName mapping action) as [fieldName|]; cbn; [|apply IH].
  destruct (DMMFClass_getField dmmf fieldName) as [field|]; [|done].
  destruct (Model_argsTypes_loop dmmf mapping model actions) as [rest|]; [|done].
  cbn. intros [= <-]. by rewrite (IH rest).
Qed.

Lemma Model_argsTypes_loop_total {A : Type} (dmmf : DMMFClass A) (mapping : Mapping)
    (model : Model) (actions : list ModelAction) :
  Forall (λ action, ∀ fieldName, mappedFieldName mapping action = Some fieldName →
                    is_Some (DMMFClass_getField dmmf fieldName)) actions →
  is_Ok (Model_argsTypes_loop dmmf mapping model actions).
Proof.
  induction 1 as [|action actions Hfield _ [rest IH]]; [by eexists|].
  rewrite Model_argsTypes_loop_cons.
  destruct (mappedFieldName mapping action) as [fieldName|]; [|by eexists].
  destruct (Hfield fieldName) as [field ->]; [done|].
  rewrite IH. by eexists.
Qed.

Lemma ArgsType_annotate_keeps (name : string) (action : option ModelAction)
    (arg arg' : SchemaArg) :
  ArgsType_annotate name action arg = Ok arg' →
  arg_name arg' = arg_name arg ∧ arg_inputType arg' = arg_inputType arg.
Proof.
  unfold ArgsType_annotate.
  destruct (ArgsType_comment name action arg) as [[comment|]|]; cbn; [| |done];
    by intros [= <-].
Qed.

Lemma mapM_annotate_keeps (name : string) (action : option ModelAction)
    (args args' : list SchemaArg) :
  mapM (ArgsType_annotate name action) args = Ok args' →
  Forall2 (λ arg arg', arg_name arg' = arg_name arg
                       ∧ arg_inputType arg' = arg_inputType arg) args args'.
Proof.
  revert args'. induction args as [|arg args IH]; intros args'; cbn.
  { intros [= <-]. constructor. }
  destruct (ArgsType_annotate name action arg) as [arg'|] eqn:Harg; [|done]. cbn.
  destruct (mapM _ args) as [rest|]; [|done]. cbn. intros [= <-].
  constructor; [by eapply ArgsType_annotate_keeps | by apply IH].
Qed.

Lemma Model_argsTypes_list {A : Type} (this : ModelGen A) :
  match gen_mapping this with
  | None => Model_argsTypes this = Ok []
  | Some mapping =>
      ∀ argsTypes, Model_argsTypes this = Ok argsTypes →
        argsTypes =
          omap (λ action, mappedFieldName mapping action ≫= λ fieldName,
                  argsTypeOf (gen_model this) action
                    <$> DMMFClass_getField (gen_dmmf this) fieldName)
               ModelAction_keys
          ++ [ArgsType [] (gen_model this) None]
  end.
Proof.
  unfold Model_argsTypes. destruct (gen_mapping this) as [mapping|]; [|done].
  intros argsTypes.
  destruct (Model_argsTypes_loop _ _ _ _) as [perAction|] eqn:Hloop; [|done].
  cbn. intros [= <-]. by rewrite (Model_argsTypes_loop_Ok _ _ _ _ _ Hloop).
Qed.

(** C4 (as amended).  For a model that has a mapping, [argsTypes] holds
    one argument type per action the mapping gives a server field, in
    the order of the actions, a reduced one for [updateMany] and
    [deleteMany], and after them one argument type without action; it
    returns as soon as every such server field is a field of [Query] or
    [Mutation].  For a model without a mapping it holds nothing.  The
    members of an argument type are [select], then [include] exactly
    when the model has a relation field, then the declared descriptors
    in their order, with their names and candidate types as declared;
    the members of a reduced argument type are the declared descriptors
    alone. *)
Theorem argument_types_of_a_model (this : ModelGen SchemaArg) :
  match gen_mapping this with
  | None => Model_argsTypes this = Ok []
  | Some mapping =>
      (∀ argsTypes, Model_argsTypes this = Ok argsTypes →
         argsTypes =
           omap (λ action, mappedFieldName mapping action ≫= λ fieldName,
                   argsTypeOf (gen_model this) action
                     <$> DMMFClass_getField (gen_dmmf this) fieldName)
                ModelAction_keys
           ++ [ArgsType [] (gen_model this) None])
      ∧ (Forall (λ action, ∀ fieldName,
                   mappedFieldName mapping action = Some fieldName →
                   is_Some (DMMFClass_getField (gen_dmmf this) fieldName))
                ModelAction_keys →
         is_Ok (Model_argsTypes this))
  end
  ∧ (∀ args action text,
       ArgsType_toTS args (gen_model this) action = Ok text →
       ∃ args' members,
         Forall2 (λ arg arg', arg_name arg' = arg_name arg
                              ∧ arg_inputType arg' = arg_inputType arg) args args'
         ∧ mapM (λ arg, InputField_toTS arg false)
             (selectArg (model_name (gen_model this))
                :: (if hasRelationField (gen_model this)
                    then [includeArg (model_name (gen_model this))] else [])
                ++ args') = Ok members
         ∧ text = argsTypeText (model_name (gen_model this)) action members)
  ∧ (∀ args action text,
       MinimalArgsType_toTS args (gen_model this) action = Ok text →
       ∃ members,
         mapM (λ arg, InputField_toTS arg false) args = Ok members
         ∧ text = argsTypeText (model_name (gen_model this)) action members).
Proof.
  split_and!.
  - unfold Model_argsTypes. destruct (gen_mapping this) as [mapping|]; [|done].
    split.
    + intros argsTypes.
      destruct (Model_argsTypes_loop _ _ _ _) as [perAction|] eqn:Hloop; [|done].
      cbn. intros [= <-]. by rewrite (Model_argsTypes_loop_Ok _ _ _ _ _ Hloop).
    + intros Hfields.
      destruct (Model_argsTypes_loop_total (gen_dmmf this) mapping (gen_model this)
                  ModelAction_keys Hfields) as [perAction ->].
      by eexists.
  - intros args action text. unfold ArgsType_toTS.
    destruct (mapM (ArgsType_annotate _ _) args) as [args'|] eqn:Hargs; [|done].
    cbn [mbind result_bind]. unfold ArgsType_render.
    destruct (mapM _ (bothArgsOptional _ args')) as [members|] eqn:Hmembers; [|done].
    cbn [mbind result_bind]. intros [= <-]. exists args', members.
    split_and!; [by eapply mapM_annotate_keeps | exact Hmembers | reflexivity].
  - intros args action text. unfold MinimalArgsType_toTS.
    destruct (mapM _ args) as [members|]; [|done].
    cbn. intros [= <-]. exists members. split; reflexivity.
Qed.

End ArgsFacts.

(** ** The delegate *)

Lemma append_assoc (a b c : string) : (a +:+ b) +:+ c = a +:+ (b +:+ c).
Proof.
  induction a as [|x a IH]; [done|].
  change (String x ((a +:+ b) +:+ c) = String x (a +:+ (b +:+ c))).
  by rewrite IH.
Qed.

Section DelegateFacts.
Context `{Utils}.

Lemma ModelDelegate_actions_keys (mapping : Mapping) (key : string) :
  (key ∈ (ModelDelegate_actions mapping).*1) ↔
    (key ∉ ["model"; "plural"; "aggregate"])
    ∧ ∃ fieldName, (key, Some fieldName) ∈ mapping_actions mapping ∧ fieldName ≠ "".
Proof.
  unfold ModelDelegate_actions, Mapping_entries. rewrite list_elem_of_fmap. split.
  - intros ([key' value] & -> & Hin). apply list_elem_of_filter in Hin as [Hkeep Hin].
    cbn in Hkeep. destruct Hkeep as (Hmodel & Hplural & Haggregate & Htruthy).
    split; [set_solver|].
    destruct value as [fieldName|]; [|done]. exists fieldName. split.
    + set_solver.
    + intros ->. done.
  - intros (Hsynthetic & fieldName & Hin & Hne).
    exists (key, Some fieldName). split; [done|].
    apply list_elem_of_filter. split; [|set_solver].
    cbn. split_and!; try set_solver.
    unfold JS.truthy. by apply negb_true_iff, String.eqb_neq.
Qed.

(** C5 (as amended).  For a model that has a mapping, the delegate
    interface has one operation per entry of the mapping whose key is
    none of [model], [plural] and [aggregate] and whose value is a
    non-empty field name, in the order of the entries, and after them
    the [count] member over the find-many argument type without
    [select] and [include], and nothing else; the emission returns when
    the model is known and every such key is an action.  For a model
    without a mapping the emission is the empty text. *)
Theorem delegate_operations {A : Type} (outputType : OutputType A) (dmmf : DMMFClass A) :
  match DMMFClass_mapping dmmf (otype_name outputType) with
  | None => ModelDelegate_toTS outputType dmmf = Ok ""
  | Some mapping =>
      (∀ key, (key ∈ (ModelDelegate_actions mapping).*1) ↔
                (key ∉ ["model"; "plural"; "aggregate"])
                ∧ ∃ fieldName, (key, Some fieldName) ∈ mapping_actions mapping
                               ∧ fieldName ≠ "")
      ∧ (∀ text, ModelDelegate_toTS outputType dmmf = Ok text →
           ∃ methods rest,
             mapM (delegateOperation outputType dmmf mapping)
                  (ModelDelegate_actions mapping) = Ok methods
             ∧ text = "export interface " +:+ otype_name outputType +:+ "Delegate {
" +:+ indent (JS.join JS.LF methods) tab +:+ "
" +:+ ModelDelegate_count (otype_name outputType) +:+ "
}" +:+ rest)
      ∧ (is_Some (DMMFClass_modelMap dmmf (otype_name outputType)) →
         Forall (λ e, is_Some (action_of_name e.1)) (ModelDelegate_actions mapping) →
         is_Ok (ModelDelegate_toTS outputType dmmf))
  end.
Proof.
  unfold ModelDelegate_toTS.
  destruct (DMMFClass_mapping dmmf (otype_name outputType)) as [mapping|]; [|done].
  change (λ e : string * option string, ModelDelegate_method _ _ _ e.1)
    with (delegateOperation outputType dmmf mapping).
  split_and!.
  - apply ModelDelegate_actions_keys.
  - intros text.
    destruct (mapM _ (ModelDelegate_actions mapping)) as [methods|]; [|done].
    cbn [mbind result_bind]. intros [= <-]. exists methods. eexists. split; [done|].
    unfold ModelDelegate_count. rewrite !append_assoc. reflexivity.
  - intros [m Hmodel] Hactions.
    destruct (mapM_result_Ok (delegateOperation outputType dmmf mapping)
                (ModelDelegate_actions mapping)) as [methods ->].
    + eapply Forall_impl; [exact Hactions|]. intros e [action Haction].
      unfold delegateOperation, ModelDelegate_method. rewrite Hmodel, Haction.
      by eexists.
    + by eexists.
Qed.

End DelegateFacts.

(** ** Payload types *)

Section PayloadFacts.
Import TypeLevel.
Context {A : Type} (dmmf : DMMFClass A) (extendsArgs : string → Selector → bool).







End PayloadFacts.

Section SelectAndInclude.
Import TypeLevel.
Context `{Utils} {A : Type} (dmmf : DMMFClass A) (extendsArgs : string → Selector → bool).


End SelectAndInclude.

(** ** The caller's document *)

Section StoreFacts.
Import Heap.

Lemma Gen_bind_unfold {X Y : Type} (m : Gen X) (f : X → Gen Y)
    (σ : gmap positive SchemaArg) :
  (m ≫= f) σ =
    match m σ with
    | (Ok x, σ') => f x σ'
    | (Throw e, σ') => (Throw e, σ')
    end.
Proof. done. Qed.

Lemma frames_ret {X : Type} L (x : X) : frames L (mret x).
Proof. by intros σ l _. Qed.

Lemma frames_lift {X : Type} L (r : result X) : frames L (lift r).
Proof. by intros σ l _. Qed.

Lemma frames_read L l : frames L (read l).
Proof. intros σ l' _. unfold read. by destruct (σ !! l). Qed.

Lemma frames_write (L : gset positive) l arg : l ∈ L → frames L (write l arg).
Proof.
  intros Hl σ l' Hl'. cbn. apply lookup_insert_ne. by intros ->.
Qed.

Lemma frames_bind {X Y : Type} L (m : Gen X) (f : X → Gen Y) :
  frames L m →
  (∀ σ x, (m σ).1 = Ok x → frames L (f x)) →
  frames L (m ≫= f).
Proof.
  intros Hm Hf σ l Hl. rewrite Gen_bind_unfold.
  specialize (Hm σ l Hl). specialize (Hf σ).
  destruct (m σ) as [[x|e] σ']; cbn in *; [|done].
  by rewrite (Hf x eq_refl σ' l Hl).
Qed.

Lemma frames_mapM {X Y : Type} L (f : X → Gen Y) (xs : list X) :
  (∀ x, x ∈ xs → frames L (f x)) → frames L (mapM f xs).
Proof.
  induction xs as [|x xs IH]; intros Hf; cbn; [apply frames_ret|].
  apply frames_bind; [apply Hf; left|]. intros _ y _.
  apply frames_bind; [apply IH; intros; apply Hf; by right|]. intros _ ys _.
  apply frames_ret.
Qed.

Lemma grows_ret {X : Type} (x : X) : grows (mret x).
Proof. by intros σ. Qed.

Lemma grows_read l : grows (read l).
Proof. intros σ. unfold read. by destruct (σ !! l). Qed.

Lemma grows_alloc arg : grows (alloc arg).
Proof.
  intros σ. cbn. apply insert_subseteq, not_elem_of_dom, is_fresh.
Qed.

Lemma grows_bind {X Y : Type} (m : Gen X) (f : X → Gen Y) :
  grows m → (∀ x, grows (f x)) → grows (m ≫= f).
Proof.
  intros Hm Hf σ. rewrite Gen_bind_unfold. specialize (Hm σ).
  destruct (m σ) as [[x|e] σ']; cbn in *; [|done].
  by etrans; [|apply Hf].
Qed.

Lemma grows_mapM {X Y : Type} (f : X → Gen Y) (xs : list X) :
  (∀ x, grows (f x)) → grows (mapM f xs).
Proof.
  intros Hf. induction xs as [|x xs IH]; cbn; [apply grows_ret|].
  apply grows_bind; [done|]. intros y.
  apply grows_bind; [done|]. intros ys. apply grows_ret.
Qed.

Lemma returns_new_ret {X : Type} (locs : X → list positive) (x : X) :
  locs x = [] → returns_new locs (mret x).
Proof. intros Hx σ y [= <-]. rewrite Hx. constructor. Qed.

Lemma returns_new_wrap {X Y : Type} (locsX : X → list positive)
    (locsY : Y → list positive) (m : Gen X) (g : X → Y) :
  returns_new locsX m → (∀ x, locsY (g x) = locsX x) →
  returns_new locsY (m ≫= λ x, mret (g x)).
Proof.
  intros Hm Hg σ y. rewrite Gen_bind_unfold. specialize (Hm σ).
  destruct (m σ) as [[x|e] σ']; cbn in *; [|done].
  intros [= <-]. rewrite Hg. by apply Hm.
Qed.

Lemma returns_new_weaken {X : Type} (locs : X → list positive) (m : Gen X)
    (σ σ' : gmap positive SchemaArg) (x : X) :
  returns_new locs m → σ ⊆ σ' → (m σ').1 = Ok x → Forall (λ l, l ∉ dom σ) (locs x).
Proof.
  intros Hm Hsub Hx. eapply Forall_impl; [by apply (Hm σ')|].
  intros l Hl Hdom. by apply Hl, (subseteq_dom _ _ Hsub).
Qed.

Lemma returns_new_mapM {X Y : Type} (locs : Y → list positive) (f : X → Gen Y)
    (xs : list X) :
  (∀ x, grows (f x)) → (∀ x, returns_new locs (f x)) →
  returns_new (λ ys, ys ≫= locs) (mapM f xs).
Proof.
  intros Hgrows Hf. induction xs as [|x xs IH]; cbn [mapM].
  { by apply returns_new_ret. }
  intros σ ys. rewrite Gen_bind_unfold.
  pose proof (Hgrows x σ) as Hsub. pose proof (Hf x σ) as Hnew.
  destruct (f x σ) as [[y|e] σ']; cbn [fst snd] in *; [|done].
  rewrite Gen_bind_unfold.
  destruct (mapM f xs σ') as [[k|e] σ''] eqn:Hrest; cbn; [|done].
  intros [= <-]. cbn. apply Forall_app. split; [by apply Hnew|].
  apply (returns_new_weaken _ (mapM f xs) σ σ'); [done|done|by rewrite Hrest].
Qed.

Section Traverse.
Context {A : Type} (f : A → Gen positive).
Context (f_grows : ∀ a, grows (f a)).
Context (f_new : ∀ a, returns_new (λ l, [l]) (f a)).

Lemma bind_singleton (ls : list positive) : ls ≫= (λ l, [l]) = ls.
Proof. induction ls as [|l ls IH]; [done|]. cbn. by rewrite IH. Qed.

Lemma mapM_args_new (args : list A) : returns_new id (mapM f args).
Proof.
  intros σ ls Hls. unfold id. rewrite <- (bind_singleton ls).
  by apply (returns_new_mapM (λ l, [l]) f args).
Qed.

Lemma traverse_field_grows (field : SchemaField A) : grows (traverse_field f field).
Proof.
  apply grows_bind; [by apply grows_mapM|]. intros args. apply grows_ret.
Qed.

Lemma traverse_field_new (field : SchemaField A) :
  returns_new sfield_args (traverse_field f field).
Proof. apply (returns_new_wrap id); [apply mapM_args_new|done]. Qed.

Lemma traverse_outputType_grows (type : OutputType A) :
  grows (traverse_outputType f type).
Proof.
  apply grows_bind; [apply grows_mapM, traverse_field_grows|].
  intros fields. apply grows_ret.
Qed.

Lemma traverse_outputType_new (type : OutputType A) :
  returns_new locs_of_outputType (traverse_outputType f type).
Proof.
  apply (returns_new_wrap (λ fields, fields ≫= sfield_args)); [|done].
  apply returns_new_mapM; [apply traverse_field_grows|apply traverse_field_new].
Qed.

Lemma traverse_inputType_grows (type : InputType A) :
  grows (traverse_inputType f type).
Proof.
  apply grows_bind; [by apply grows_mapM|]. intros fields. apply grows_ret.
Qed.

Lemma traverse_inputType_new (type : InputType A) :
  returns_new itype_fields (traverse_inputType f type).
Proof. apply (returns_new_wrap id); [apply mapM_args_new|done]. Qed.

Lemma traverse_grows (doc : Document A) : grows (traverse f doc).
Proof.
  apply grows_bind; [apply grows_mapM, traverse_outputType_grows|].
  intros outputTypes.
  apply grows_bind; [apply grows_mapM, traverse_inputType_grows|].
  intros inputTypes. apply grows_ret.
Qed.

Lemma traverse_new (doc : Document A) : returns_new locs_of (traverse f doc).
Proof.
  intros σ doc'. unfold traverse. rewrite Gen_bind_unfold.
  pose proof (grows_mapM (traverse_outputType f) (schema_outputTypes doc)
                traverse_outputType_grows σ) as Hsub.
  pose proof (returns_new_mapM locs_of_outputType (traverse_outputType f)
                (schema_outputTypes doc) traverse_outputType_grows
                traverse_outputType_new σ) as Hout.
  destruct (mapM (traverse_outputType f) _ σ) as [[outputTypes|e] σ'];
    cbn [fst snd] in *; [|done].
  rewrite Gen_bind_unfold.
  destruct (mapM (traverse_inputType f) _ σ') as [[inputTypes|e] σ''] eqn:Hin;
    cbn; [|done].
  intros [= <-]. unfold locs_of. cbn. apply Forall_app. split; [by apply Hout|].
  apply (returns_new_weaken (λ types, types ≫= itype_fields)
           (mapM (traverse_inputType f) (schema_inputTypes doc)) σ σ');
    [|done|by rewrite Hin].
  apply returns_new_mapM; [apply traverse_inputType_grows|apply traverse_inputType_new].
Qed.

End Traverse.

Lemma copy_grows (l : positive) : grows (read l ≫= alloc).
Proof. apply grows_bind; [apply grows_read|apply grows_alloc]. Qed.

Lemma copy_new (l : positive) : returns_new (λ l', [l']) (read l ≫= alloc).
Proof.
  intros σ l'. rewrite Gen_bind_unfold. unfold read.
  destruct (σ !! l) as [arg|]; cbn; [|done].
  intros [= <-]. constructor; [apply is_fresh|constructor].
Qed.

Lemma klona_grows (doc : Document positive) : grows (klona doc).
Proof. apply traverse_grows, copy_grows. Qed.

Lemma klona_new (doc : Document positive) : returns_new locs_of (klona doc).
Proof. apply traverse_new; [apply copy_grows|apply copy_new]. Qed.

Section EmissionFacts.
Context `{Utils} `{Platform}.

Lemma ArgsType_forEach_frames (L : gset positive) name action l :
  l ∈ L → frames L (ArgsType_forEach name action l).
Proof.
  intros Hl. apply frames_bind; [apply frames_read|]. intros _ arg _.
  apply frames_bind; [apply frames_lift|]. intros _ [comment|] _.
  - by apply frames_write.
  - apply frames_ret.
Qed.

Lemma TS_frames (L : gset positive) (gen : ArgsGeneratable positive) :
  (∀ l, l ∈ argsOf gen → l ∈ L) → frames L (Heap.TS gen).
Proof.
  intros Hargs. destruct gen as [args model action|args model action]; cbn in *.
  - apply frames_bind; [apply frames_mapM; intros; apply frames_read|].
    intros. apply frames_lift.
  - apply frames_bind.
    { apply frames_mapM. intros l Hl. by apply ArgsType_forEach_frames, Hargs. }
    intros. apply frames_bind; [apply frames_mapM; intros; apply frames_read|].
    intros. apply frames_lift.
Qed.

Lemma rootFields_args {A : Type} (dmmf : DMMFClass A) (root : string)
    (field : SchemaField A) :
  field ∈ rootFields dmmf root →
  ∀ l, l ∈ sfield_args field → l ∈ locs_of dmmf.
Proof.
  unfold rootFields, DMMFClass_outputTypeMap. intros Hroot l Hl.
  destruct (list_find _ (schema_outputTypes dmmf)) as [[j type]|] eqn:Htype;
    cbn in Hroot; [|by apply elem_of_nil in Hroot].
  apply list_find_Some in Htype as (Htype%list_elem_of_lookup_2 & _ & _).
  unfold locs_of. apply elem_of_app. left.
  apply list_elem_of_bind. exists type. split; [|done].
  apply list_elem_of_bind. by exists field.
Qed.

Lemma getField_args {A : Type} (dmmf : DMMFClass A) (fieldName : string)
    (field : SchemaField A) :
  DMMFClass_getField dmmf fieldName = Some field →
  ∀ l, l ∈ sfield_args field → l ∈ locs_of dmmf.
Proof.
  unfold DMMFClass_getField. intros Hfield.
  destruct (list_find _ (_ ++ _)) as [[i field']|] eqn:Hfind; [|done].
  cbn in Hfield. injection Hfield as ->.
  apply list_find_Some in Hfind as (Hin%list_elem_of_lookup_2 & _ & _).
  apply elem_of_app in Hin as [Hin|Hin]; by eapply rootFields_args.
Qed.

Lemma Model_argsTypes_args {A : Type} (this : ModelGen A)
    (argsTypes : list (ArgsGeneratable A)) :
  Model_argsTypes this = Ok argsTypes →
  ∀ gen, gen ∈ argsTypes → ∀ l, l ∈ argsOf gen → l ∈ locs_of (gen_dmmf this).
Proof.
  intros Hargs gen Hgen l Hl.
  pose proof (Model_argsTypes_list this) as Hlist.
  destruct (gen_mapping this) as [mapping|]; [|].
  - rewrite (Hlist argsTypes Hargs) in Hgen.
    apply elem_of_app in Hgen as [Hgen|Hgen].
    + apply list_elem_of_omap in Hgen as (action & _ & Hgen).
      destruct (mappedFieldName mapping action) as [fieldName|]; [|done].
      cbn in Hgen.
      destruct (DMMFClass_getField (gen_dmmf this) fieldName) as [field|] eqn:Hfield;
        [|done].
      cbn in Hgen. injection Hgen as <-.
      eapply getField_args; [done|]. by destruct action.
    + apply list_elem_of_singleton in Hgen as ->. by apply elem_of_nil in Hl.
  - rewrite Hlist in Hargs. injection Hargs as <-. by apply elem_of_nil in Hgen.
Qed.

Lemma Model_toTS_frames (this : ModelGen positive) :
  frames (list_to_set (locs_of (gen_dmmf this))) (Heap.Model_toTS this).
Proof.
  apply frames_bind; [apply frames_lift|]. intros _ delegate _.
  apply frames_bind; [apply frames_lift|]. intros σ argsTypes Hargs.
  apply frames_bind; [|intros; apply frames_ret].
  apply frames_mapM. intros gen Hgen. apply TS_frames. intros l Hl.
  apply elem_of_list_to_set. by eapply Model_argsTypes_args.
Qed.

Lemma Model_new_dmmf {A : Type} (model : Model) (dmmf : DMMFClass A) (this : ModelGen A) :
  Model_new model dmmf = Ok this → gen_dmmf this = dmmf.
Proof.
  unfold Model_new. destruct (DMMFClass_outputTypeMap _ _); [|done]. by intros [= <-].
Qed.

Lemma TSClient_toTS_frames (this : TSClient positive) :
  frames (list_to_set (locs_of (dmmf this))) (Heap.TSClient_toTS this).
Proof.
  apply frames_bind; [apply frames_lift|]. intros _ clientClass _.
  apply frames_bind.
  { apply frames_mapM. intros model _.
    apply frames_bind; [apply frames_lift|]. intros σ gen Hgen.
    rewrite <- (Model_new_dmmf model (dmmf this) gen Hgen).
    apply Model_toTS_frames. }
  intros _ models _. apply frames_bind; [|intros; apply frames_ret].
  apply frames_mapM. intros type _.
  apply frames_bind; [|intros; apply frames_lift].
  apply frames_bind; [apply frames_mapM; intros; apply frames_read|].
  intros. apply frames_ret.
Qed.

Lemma emissions_frames (this : TSClient positive) (es : list Emission)
    (σ : gmap positive SchemaArg) (l : positive) :
  l ∉ locs_of (dmmf this) → emissions this es σ !! l = σ !! l.
Proof.
  intros Hl. unfold emissions. revert σ.
  induction es as [|e es IH]; intros σ; [done|]. cbn. rewrite IH.
  destruct e; cbn.
  - apply TSClient_toTS_frames. by rewrite elem_of_list_to_set.
  - done.
Qed.

End EmissionFacts.

Lemma reads_ret {X : Type} (x : X) : reads (mret x).
Proof. done. Qed.

Lemma reads_read l : reads (read l).
Proof. intros σ. unfold read. by destruct (σ !! l). Qed.

Lemma reads_bind {X Y : Type} (m : Gen X) (f : X → Gen Y) :
  reads m → (∀ x, reads (f x)) → reads (m ≫= f).
Proof.
  intros Hm Hf σ. rewrite Gen_bind_unfold. specialize (Hm σ).
  destruct (m σ) as [[x|e] σ']; cbn in *; subst; [apply Hf|done].
Qed.

Lemma reads_mapM {X Y : Type} (f : X → Gen Y) (xs : list X) :
  (∀ x, reads (f x)) → reads (mapM f xs).
Proof.
  intros Hf. induction xs as [|x xs IH]; cbn; [done|].
  apply reads_bind; [done|]. intros y. by apply reads_bind.
Qed.

Lemma reads_from_ret {X : Type} L (x : X) : reads_from L (mret x).
Proof. done. Qed.

Lemma reads_from_read L l : l ∈ L → reads_from L (read l).
Proof. intros Hl σ1 σ2 Hagree. unfold read. rewrite (Hagree l Hl). by destruct (σ2 !! l). Qed.

Lemma reads_from_bind {X Y : Type} L (m : Gen X) (f : X → Gen Y) :
  reads m → reads_from L m → (∀ x, reads_from L (f x)) → reads_from L (m ≫= f).
Proof.
  intros Hreads Hm Hf σ1 σ2 Hagree. rewrite !Gen_bind_unfold.
  pose proof (Hm σ1 σ2 Hagree) as Heq.
  pose proof (Hreads σ1) as H1. pose proof (Hreads σ2) as H2.
  destruct (m σ1) as [[x1|e1] σ1'], (m σ2) as [[x2|e2] σ2']; cbn in *; subst;
    simplify_eq; [by apply Hf|done].
Qed.

Lemma reads_from_mapM {X Y : Type} L (f : X → Gen Y) (xs : list X) :
  (∀ x, reads (f x)) → (∀ x, x ∈ xs → reads_from L (f x)) →
  reads_from L (mapM f xs).
Proof.
  intros Hreads. induction xs as [|x xs IH]; intros Hf; cbn; [done|].
  apply reads_from_bind; [done|apply Hf; left|]. intros y.
  apply reads_from_bind; [by apply reads_mapM| |done].
  apply IH. intros; apply Hf; by right.
Qed.

Lemma reads_from_mono {X : Type} (L L' : list positive) (m : Gen X) :
  (∀ l, l ∈ L → l ∈ L') → reads_from L m → reads_from L' m.
Proof. intros Hsub Hm σ1 σ2 Hagree. apply Hm. auto. Qed.

Lemma mapM_read_reads_from (ls : list positive) : reads_from ls (mapM read ls).
Proof.
  apply reads_from_mapM; [apply reads_read|]. intros l Hl. by apply reads_from_read.
Qed.

Lemma traverse_field_read_reads (field : SchemaField positive) :
  reads (traverse_field read field)
  ∧ reads_from (sfield_args field) (traverse_field read field).
Proof.
  split.
  - apply reads_bind; [apply reads_mapM, reads_read|done].
  - apply reads_from_bind;
      [apply reads_mapM, reads_read|apply mapM_read_reads_from|done].
Qed.

Lemma traverse_outputType_read_reads (type : OutputType positive) :
  reads (traverse_outputType read type)
  ∧ reads_from (locs_of_outputType type) (traverse_outputType read type).
Proof.
  split.
  - apply reads_bind; [|done]. apply reads_mapM. intros; apply traverse_field_read_reads.
  - apply reads_from_bind; [| |done].
    + apply reads_mapM. intros; apply traverse_field_read_reads.
    + apply reads_from_mapM; [intros; apply traverse_field_read_reads|].
      intros field Hfield.
      apply (reads_from_mono (sfield_args field)); [|apply traverse_field_read_reads].
      intros l Hl. apply list_elem_of_bind. by exists field.
Qed.

Lemma traverse_inputType_read_reads (type : InputType positive) :
  reads (traverse_inputType read type)
  ∧ reads_from (itype_fields type) (traverse_inputType read type).
Proof.
  split.
  - apply reads_bind; [apply reads_mapM, reads_read|done].
  - apply reads_from_bind;
      [apply reads_mapM, reads_read|apply mapM_read_reads_from|done].
Qed.

Lemma deref_reads (doc : Document positive) :
  reads (deref doc) ∧ reads_from (locs_of doc) (deref doc).
Proof.
  assert (reads (mapM (traverse_outputType read) (schema_outputTypes doc))) as Hout.
  { apply reads_mapM. intros; apply traverse_outputType_read_reads. }
  assert (reads (mapM (traverse_inputType read) (schema_inputTypes doc))) as Hin.
  { apply reads_mapM. intros; apply traverse_inputType_read_reads. }
  split.
  - apply reads_bind; [done|]. intros. by apply reads_bind.
  - apply reads_from_bind; [done| |].
    + apply reads_from_mapM; [intros; apply traverse_outputType_read_reads|].
      intros type Htype.
      apply (reads_from_mono (locs_of_outputType type));
        [|apply traverse_outputType_read_reads].
      intros l Hl. apply elem_of_app. left. apply list_elem_of_bind. by exists type.
    + intros outputTypes. apply reads_from_bind; [done| |done].
      apply reads_from_mapM; [intros; apply traverse_inputType_read_reads|].
      intros type Htype.
      apply (reads_from_mono (itype_fields type));
        [|apply traverse_inputType_read_reads].
      intros l Hl. apply elem_of_app. right. apply list_elem_of_bind. by exists type.
Qed.

Lemma stable_ret {X : Type} (x : X) : stable (mret x).
Proof. by intros σ σ' y. Qed.

Lemma stable_read l : stable (read l).
Proof.
  intros σ σ' arg. unfold read.
  destruct (σ !! l) as [arg'|] eqn:Hl; cbn; [|done].
  intros [= <-] Hsub. by rewrite (lookup_weaken _ _ _ _ Hl Hsub).
Qed.

Lemma stable_bind {X Y : Type} (m : Gen X) (f : X → Gen Y) :
  reads m → stable m → (∀ x, stable (f x)) → stable (m ≫= f).
Proof.
  intros Hreads Hm Hf σ σ' y. rewrite !Gen_bind_unfold.
  pose proof (Hreads σ) as Hσ. pose proof (Hreads σ') as Hσ'.
  specialize (Hm σ σ').
  destruct (m σ) as [[x|e] σ1]; cbn in *; [|done]. subst σ1.
  intros Hy Hsub. specialize (Hm x eq_refl Hsub).
  destruct (m σ') as [[x'|e'] σ1']; cbn in *; simplify_eq.
  by apply (Hf x σ σ').
Qed.

Lemma stable_mapM {X Y : Type} (f : X → Gen Y) (xs : list X) :
  (∀ x, reads (f x)) → (∀ x, stable (f x)) → stable (mapM f xs).
Proof.
  intros Hreads Hf. induction xs as [|x xs IH]; cbn [mapM]; [apply stable_ret|].
  apply stable_bind; [done|done|]. intros y.
  apply stable_bind; [by apply reads_mapM|done|]. intros ys. apply stable_ret.
Qed.

Lemma copies_mapM {X Y Z : Type} (f : X → Gen Y) (g : X → Gen Z) (h : Y → Gen Z) :
  (∀ x, grows (f x)) → (∀ x, reads (g x)) → (∀ y, reads (h y)) →
  (∀ x, stable (g x)) → copies f g h →
  copies (mapM f) (mapM g) (mapM h).
Proof.
  intros Hgrows Hg Hh Hstable Hf xs.
  induction xs as [|x xs IH]; intros σ zs; cbn [mapM].
  { intros [= <-]. by exists []. }
  rewrite Gen_bind_unfold.
  pose proof (Hg x σ) as Hσ. pose proof (Hf x σ) as Hx.
  destruct (g x σ) as [[z|e] σ0]; cbn [fst snd] in *; [|done]. subst σ0.
  rewrite Gen_bind_unfold.
  pose proof (reads_mapM g xs Hg σ) as Hσ.
  destruct (mapM g xs σ) as [[zs'|e] σ0] eqn:Hzs; cbn [fst snd] in *; [|done]. subst σ0.
  intros [= <-].
  destruct (Hx z eq_refl) as (y & Hy & Hread).
  pose proof (Hgrows x σ) as Hsub.
  destruct (f x σ) as [r σ1] eqn:Hfx; cbn [fst snd] in *. subst r.
  destruct (IH σ1 zs') as (ys & Hys & Hreads).
  { apply (stable_mapM g xs Hg Hstable σ σ1); [by rewrite Hzs|done]. }
  pose proof (grows_mapM f xs Hgrows σ1) as Hsub'.
  exists (y :: ys). rewrite !Gen_bind_unfold, Hfx, Gen_bind_unfold.
  destruct (mapM f xs σ1) as [r σ2]; cbn [fst snd] in *. subst r.
  split; [done|]. intros σ' Hσ'.
  cbn [mapM]. rewrite Gen_bind_unfold.
  pose proof (Hh y σ') as Hsame. specialize (Hread σ').
  destruct (h y σ') as [r σ0]; cbn [fst snd] in *. subst σ0.
  rewrite Hread by (by etrans). rewrite Gen_bind_unfold.
  pose proof (reads_mapM h ys Hh σ') as Hsame. specialize (Hreads σ' Hσ').
  destruct (mapM h ys σ') as [r' σ0]; cbn [fst snd] in *. by subst.
Qed.

Lemma copy_copies : copies (λ l, read l ≫= alloc) read read.
Proof.
  intros l σ arg Harg.
  assert (σ !! l = Some arg) as Hl.
  { unfold read in Harg. destruct (σ !! l); by simplify_eq/=. }
  assert ((read l ≫= alloc) σ
          = (Ok (fresh (dom σ)), <[fresh (dom σ) := arg]> σ)) as ->.
  { rewrite Gen_bind_unfold. unfold read. by rewrite Hl. }
  eexists. split; [done|]. cbn [fst snd]. intros σ' Hσ'.
  unfold read. erewrite lookup_weaken; [done| |done]. apply lookup_insert_eq.
Qed.

Section Copies.
Context (f : positive → Gen positive).
Context (f_grows : ∀ l, grows (f l)) (f_copies : copies f read read).

Lemma mapM_args_copies : copies (mapM f) (mapM read) (mapM read).
Proof. apply copies_mapM; auto using reads_read, stable_read. Qed.

Lemma traverse_field_stable (field : SchemaField positive) :
  stable (traverse_field read field).
Proof.
  apply stable_bind; [apply reads_mapM, reads_read| |intros; apply stable_ret].
  apply stable_mapM; auto using reads_read, stable_read.
Qed.

Lemma traverse_field_copies :
  copies (traverse_field f) (traverse_field read) (traverse_field read).
Proof.
  intros field σ z. unfold traverse_field. rewrite !Gen_bind_unfold.
  pose proof (mapM_args_copies (sfield_args field) σ) as Hargs.
  destruct (mapM read (sfield_args field) σ) as [[zs|e] σ0]; cbn [fst snd] in *; [|done].
  intros [= <-]. destruct (Hargs zs eq_refl) as (ys & Hys & Hread).
  destruct (mapM f _ σ) as [r σ1]; cbn [fst snd] in *; subst r.
  eexists. split; [done|]. intros σ' Hσ'. cbn. rewrite Gen_bind_unfold.
  specialize (Hread σ' Hσ'). destruct (mapM read ys σ') as [r σ'']; cbn in *; by subst r.
Qed.

Lemma traverse_outputType_stable (type : OutputType positive) :
  stable (traverse_outputType read type).
Proof.
  apply stable_bind; [| |intros; apply stable_ret].
  - apply reads_mapM. intros; apply traverse_field_read_reads.
  - apply stable_mapM; [intros; apply traverse_field_read_reads|].
    apply traverse_field_stable.
Qed.

Lemma traverse_outputType_copies :
  copies (traverse_outputType f) (traverse_outputType read) (traverse_outputType read).
Proof.
  intros type σ z. unfold traverse_outputType. rewrite !Gen_bind_unfold.
  pose proof (copies_mapM (traverse_field f) (traverse_field read) (traverse_field read)
                (traverse_field_grows f f_grows)
                (λ x, proj1 (traverse_field_read_reads x))
                (λ x, proj1 (traverse_field_read_reads x))
                traverse_field_stable traverse_field_copies
                (otype_fields type) σ) as Hfields.
  destruct (mapM (traverse_field read) _ σ) as [[zs|e] σ0]; cbn [fst snd] in *; [|done].
  intros [= <-]. destruct (Hfields zs eq_refl) as (ys & Hys & Hread).
  destruct (mapM (traverse_field f) _ σ) as [r σ1]; cbn [fst snd] in *; subst r.
  eexists. split; [done|]. intros σ' Hσ'. cbn. rewrite Gen_bind_unfold.
  specialize (Hread σ' Hσ').
  destruct (mapM (traverse_field read) ys σ') as [r σ'']; cbn in *; by subst r.
Qed.

Lemma traverse_inputType_stable (type : InputType positive) :
  stable (traverse_inputType read type).
Proof.
  apply stable_bind; [apply reads_mapM, reads_read| |intros; apply stable_ret].
  apply stable_mapM; auto using reads_read, stable_read.
Qed.

Lemma traverse_inputType_copies :
  copies (traverse_inputType f) (traverse_inputType read) (traverse_inputType read).
Proof.
  intros type σ z. unfold traverse_inputType. rewrite !Gen_bind_unfold.
  pose proof (mapM_args_copies (itype_fields type) σ) as Hargs.
  destruct (mapM read (itype_fields type) σ) as [[zs|e] σ0]; cbn [fst snd] in *; [|done].
  intros [= <-]. destruct (Hargs zs eq_refl) as (ys & Hys & Hread).
  destruct (mapM f _ σ) as [r σ1]; cbn [fst snd] in *; subst r.
  eexists. split; [done|]. intros σ' Hσ'. cbn. rewrite Gen_bind_unfold.
  specialize (Hread σ' Hσ'). destruct (mapM read ys σ') as [r σ'']; cbn in *; by subst r.
Qed.

Lemma deref_stable (doc : Document positive) : stable (deref doc).
Proof.
  apply stable_bind.
  - apply reads_mapM. intros; apply traverse_outputType_read_reads.
  - apply stable_mapM; [intros; apply traverse_outputType_read_reads|].
    apply traverse_outputType_stable.
  - intros outputTypes. apply stable_bind; [| |intros; apply stable_ret].
    + apply reads_mapM. intros; apply traverse_inputType_read_reads.
    + apply stable_mapM; [intros; apply traverse_inputType_read_reads|].
      apply traverse_inputType_stable.
Qed.

Lemma traverse_copies : copies (traverse f) deref deref.
Proof.
  intros doc σ z. unfold deref, traverse. rewrite !Gen_bind_unfold.
  pose proof (copies_mapM (traverse_outputType f) (traverse_outputType read)
                (traverse_outputType read)
                (traverse_outputType_grows f f_grows)
                (λ x, proj1 (traverse_outputType_read_reads x))
                (λ x, proj1 (traverse_outputType_read_reads x))
                traverse_outputType_stable traverse_outputType_copies
                (schema_outputTypes doc) σ) as Hout.
  pose proof (reads_mapM (traverse_outputType read) (schema_outputTypes doc)
                (λ x, proj1 (traverse_outputType_read_reads x)) σ) as Hσ.
  destruct (mapM (traverse_outputType read) _ σ) as [[outs|e] σ0] eqn:Houts;
    cbn [fst snd] in *; [|done]. subst σ0.
  destruct (Hout outs eq_refl) as (outs' & Houts' & Hread).
  pose proof (grows_mapM (traverse_outputType f) (schema_outputTypes doc)
                (traverse_outputType_grows f f_grows) σ) as Hsub.
  destruct (mapM (traverse_outputType f) _ σ) as [r σ1]; cbn [fst snd] in *; subst r.
  rewrite !Gen_bind_unfold.
  pose proof (copies_mapM (traverse_inputType f) (traverse_inputType read)
                (traverse_inputType read)
                (traverse_inputType_grows f f_grows)
                (λ x, proj1 (traverse_inputType_read_reads x))
                (λ x, proj1 (traverse_inputType_read_reads x))
                traverse_inputType_stable traverse_inputType_copies
                (schema_inputTypes doc) σ1) as Hin.
  pose proof (stable_mapM (traverse_inputType read) (schema_inputTypes doc)
                (λ x, proj1 (traverse_inputType_read_reads x))
                traverse_inputType_stable σ σ1) as Hstable.
  destruct (mapM (traverse_inputType read) _ σ) as [[ins|e] σ0]; cbn [fst snd] in *;
    [|done].
  intros [= <-]. destruct (Hin ins (Hstable ins eq_refl Hsub)) as (ins' & Hins' & Hread').
  pose proof (grows_mapM (traverse_inputType f) (schema_inputTypes doc)
                (traverse_inputType_grows f f_grows) σ1) as Hsub'.
  destruct (mapM (traverse_inputType f) _ σ1) as [r σ2]; cbn [fst snd] in *; subst r.
  eexists. split; [done|]. intros σ' Hσ'. cbn. rewrite Gen_bind_unfold.
  pose proof (reads_mapM (traverse_outputType read) outs'
                (λ x, proj1 (traverse_outputType_read_reads x)) σ') as Hσ1.
  assert (σ1 ⊆ σ') as Hσ1' by (by etrans). specialize (Hread σ' Hσ1').
  destruct (mapM (traverse_outputType read) outs' σ') as [r σ'']; cbn [fst snd] in *.
  subst. rewrite Gen_bind_unfold. specialize (Hread' σ' Hσ').
  destruct (mapM (traverse_inputType read) ins' σ') as [r σ'']; cbn in *; by subst r.
Qed.

End Copies.

Lemma klona_copies : copies klona deref deref.
Proof. apply traverse_copies; [apply copy_grows|apply copy_copies]. Qed.

Section CallerDocument.
Context `{Utils} `{Platform}.

Lemma TSClient_new_grows (opts : TSClientOptions positive) :
  grows (Heap.TSClient_new opts).
Proof.
  apply grows_bind.
  { intros σ. by rewrite (proj1 (deref_reads (document opts)) σ). }
  intros content. apply grows_bind; [apply klona_grows|]. intros copy. apply grows_ret.
Qed.

Lemma TSClient_new_copy (opts : TSClientOptions positive) :
  returns_new (λ this, locs_of (dmmf this)) (Heap.TSClient_new opts).
Proof.
  intros σ this. unfold Heap.TSClient_new. rewrite Gen_bind_unfold.
  pose proof (proj1 (deref_reads (document opts)) σ) as Hsame.
  destruct (deref (document opts) σ) as [[content|e] σ']; cbn in Hsame; subst;
    [|done].
  rewrite Gen_bind_unfold. pose proof (klona_new (document opts) σ) as Hnew.
  destruct (klona (document opts) σ) as [[copy|e] σ']; cbn in *; [|done].
  intros [= <-]. by apply Hnew.
Qed.

Lemma TSClient_new_options (opts : TSClientOptions positive)
    (σ : gmap positive SchemaArg) (this : TSClient positive) :
  (Heap.TSClient_new opts σ).1 = Ok this → options this = opts.
Proof.
  unfold Heap.TSClient_new. rewrite Gen_bind_unfold.
  destruct (deref (document opts) σ) as [[content|e] σ']; [|done].
  rewrite Gen_bind_unfold.
  destruct (klona (document opts) σ') as [[copy|e] σ'']; [|done].
  by intros [= <-].
Qed.

Lemma TSClient_new_inv (opts : TSClientOptions positive)
    (σ : gmap positive SchemaArg) (this : TSClient positive) :
  (Heap.TSClient_new opts σ).1 = Ok this →
  ∃ content,
    (deref (document opts) σ).1 = Ok content
    ∧ (klona (document opts) σ).1 = Ok (dmmf this)
    ∧ (Heap.TSClient_new opts σ).2 = (klona (document opts) σ).2.
Proof.
  unfold Heap.TSClient_new. rewrite Gen_bind_unfold.
  pose proof (proj1 (deref_reads (document opts)) σ) as Hsame.
  destruct (deref (document opts) σ) as [[content|e] σ']; cbn in Hsame; subst;
    [|done].
  rewrite Gen_bind_unfold.
  destruct (klona (document opts) σ) as [[copy|e] σ']; [|done].
  intros [= <-]. by exists content.
Qed.

(** C8.  The constructor creates the objects of a copy of the
    document and assigns to no object that exists; the descriptors of
    the copy the client works on are all new objects, none of them an
    object of the caller, and the copy reads as the caller's document
    does; and after any sequence of [toTS] and [toJS] emissions, whether
    they return or throw, every object that existed when the client was
    constructed has the content it had then, so the caller's document,
    which the client still holds in its options, reads as it did: the
    same descriptors, with their names, candidate types and comments. *)
Theorem caller_document_is_never_mutated (opts : TSClientOptions positive)
    (σ : gmap positive SchemaArg) (this : TSClient positive) (es : list Emission) :
  (Heap.TSClient_new opts σ).1 = Ok this →
  σ ⊆ (Heap.TSClient_new opts σ).2
  ∧ Forall (λ l, l ∉ dom σ) (locs_of (dmmf this))
  ∧ (∀ l, l ∈ dom σ →
       emissions this es (Heap.TSClient_new opts σ).2 !! l = σ !! l)
  ∧ ∃ content : Document SchemaArg,
      (deref (document opts) σ).1 = Ok content
      ∧ (deref (dmmf this) (Heap.TSClient_new opts σ).2).1 = Ok content
      ∧ (deref (document (options this))
           (emissions this es (Heap.TSClient_new opts σ).2)).1 = Ok content.
Proof.
  intros Hthis.
  pose proof (TSClient_new_grows opts σ) as Hgrows.
  pose proof (TSClient_new_copy opts σ this Hthis) as Hcopy.
  assert (∀ l, l ∈ dom σ →
            emissions this es (Heap.TSClient_new opts σ).2 !! l = σ !! l) as Hsame.
  { intros l Hl. rewrite emissions_frames.
    - apply elem_of_dom in Hl as [arg Harg]. rewrite Harg.
      by apply (lookup_weaken _ _ _ _ Harg).
    - intros Hin. by apply (proj1 (Forall_forall _ _) Hcopy l Hin). }
  split_and!; [done..|].
  destruct (TSClient_new_inv opts σ this Hthis) as (content & Hcontent & Hklona & Hstore).
  exists content. split_and!; [done| |].
  - destruct (klona_copies (document opts) σ content Hcontent) as (copy & Hcopy' & Hread).
    rewrite Hklona in Hcopy'. injection Hcopy' as <-.
    apply Hread. by rewrite Hstore.
  - rewrite (TSClient_new_options opts σ this Hthis).
    apply (deref_stable (document opts) σ); [done|].
    apply map_subseteq_spec. intros l arg Hl.
    rewrite Hsame; [done|]. by apply elem_of_dom.
Qed.

End CallerDocument.

End StoreFacts.

(** ** The assembled document *)

Section DocumentFacts.
Context `{Utils}.

(** C9 (as amended).  When the emission returns, the document is the
    prelude, the client class, the declarations of the enumerations in
    their order, the texts of the models in the order of the model map
    (for each model its value type, its select and include types, its
    payload type, its delegate and its argument types), the
    declarations of the input types in their order, and the batch
    result, one after the other.  (Names are resolved by the TypeScript
    compiler, whatever the order: the text of a model names input types,
    and [BatchPayload], that are declared further down.) *)
Theorem document_sections_in_order (this : TSClient SchemaArg) (text : string) :
  TSClient_toTS this = Ok text →
  ∃ clientClass models inputTypes,
    PrismaClientClass_toTS (dmmf this) (datasources (options this)) = Ok clientClass
    ∧ Forall2 (λ model text, Model_new model (dmmf this) ≫= Model_toTS = Ok text)
        (DMMFClass_models (dmmf this)) models
    ∧ Forall2 (λ type text, InputType_toTS type = Ok text)
        (schema_inputTypes (dmmf this)) inputTypes
    ∧ text =
        commonCodeTS (runtimePath (options this)) (clientVersion (options this))
          (engineVersion (options this)) +:+ "

/**
 * Client
**/

" +:+ clientClass +:+ "



/**
 * Enums
 */

// Based on
// https://github.com/microsoft/TypeScript/issues/3192#issuecomment-261720275

" +:+ JS.join (JS.LF +:+ JS.LF) (Enum_toTS <$> schema_enums (dmmf this)) +:+ "

" +:+ JS.join JS.LF models +:+ "

/**
 * Deep Input Types
 */

" +:+ JS.join JS.LF inputTypes +:+ "

/**
 * Batch Payload for updateMany & deleteMany
 */

export type BatchPayload = {
  count: number
}

/**
 * DMMF
 */
export declare const dmmf: DMMF.Document;
export {};
".
Proof.
  unfold TSClient_toTS. intros Htext.
  destruct (PrismaClientClass_toTS _ _) as [clientClass|]; [|done].
  cbn [mbind result_bind] in Htext.
  destruct (mapM _ (DMMFClass_models _)) as [models|] eqn:Hmodels; [|done].
  cbn [mbind result_bind] in Htext.
  destruct (mapM _ (schema_inputTypes _)) as [inputTypes|] eqn:HinputTypes; [|done].
  cbn [mbind result_bind] in Htext. injection Htext as <-.
  exists clientClass, models, inputTypes.
  split_and!; [done|by apply mapM_result_Forall2..|reflexivity].
Qed.

End DocumentFacts.


(** ** The properties on the sample schema *)

Module Examples.
Import TypeLevel.
#[local] Existing Instance Sample.utils.
#[local] Existing Instance Sample.platform.

(** *** Select *)



(** The three examples of the design document. *)
Example select_title :
  GetPayload Sample.blog Sample.assignable "Post" (SelArgs (Some [("title", SelTrue)]) None)
  = TyMapped [("title", TyIndexed "Post" "title")].
Proof. reflexivity. Qed.

Example include_author :
  GetPayload Sample.blog Sample.assignable "Post" (SelArgs None (Some [("author", SelTrue)]))
  = TyIntersection (TyModel "Post") (TyMapped [("author", TyModel "User")]).
Proof. reflexivity. Qed.

Example select_author_email :
  GetPayload Sample.blog Sample.assignable "Post"
    (SelArgs (Some [("author", SelArgs (Some [("email", SelTrue)]) None)]) None)
  = TyMapped [("author", TyMapped [("email", TyIndexed "User" "email")])].
Proof. reflexivity. Qed.

Example select_posts_of_user_and_unknown_key :
  GetPayload Sample.blog Sample.assignable "User"
    (SelArgs (Some [("posts", SelTrue); ("bogus", SelTrue)]) None)
  = TyMapped [("posts", TyArray (TyModel "Post")); ("bogus", TyNever)].
Proof. reflexivity. Qed.

(** *** Select together with include *)


(** *** Include *)



(** *** Models without a mapping *)

(** C4, as stated, fails.  [Team] is a model of the schema, and no
    argument type is emitted for it, the one without action
    included. *)
Lemma model_without_mapping_has_no_argument_type :
  Sample.Team ∈ DMMFClass_models Sample.orphan
  ∧ Model_new Sample.Team Sample.orphan ≫= Model_argsTypes = Ok [].
Proof. split; [set_solver|reflexivity]. Qed.

(** C5, as stated, fails.  No [count] operation is emitted for
    [Team]: its delegate is the empty text. *)
Lemma model_without_mapping_has_no_count :
  Sample.Team ∈ DMMFClass_models Sample.orphan
  ∧ DMMFClass_mapping Sample.orphan "Team" = None
  ∧ ModelDelegate_toTS Sample.TeamOutput Sample.orphan = Ok "".
Proof. split_and!; [set_solver|reflexivity..]. Qed.

(** The operations of [Post]: [update] has no server field and
    [aggregate] is no operation. *)
Example post_operations :
  (ModelDelegate_actions Sample.PostMapping).*1
  = ["findOne"; "findMany"; "create"; "updateMany"].
Proof. reflexivity. Qed.

Example post_argument_types :
  Model_new Sample.Post Sample.blog ≫= Model_argsTypes =
    Ok [ArgsType [Sample.whereArg "PostWhereUniqueInput" true] Sample.Post (Some findOne);
        ArgsType [Sample.whereArg "PostWhereInput" false] Sample.Post (Some findMany);
        ArgsType [Sample.dataArg "PostCreateInput"] Sample.Post (Some create);
        MinimalArgsType [Sample.dataArg "PostUpdateManyMutationInput";
                         Sample.whereArg "PostWhereInput" false]
          Sample.Post (Some updateMany);
        ArgsType [] Sample.Post None].
Proof. reflexivity. Qed.

(** *** Input types and fields *)

Example two_where_fields :
  InputType_toTS Sample.twoWheres = Ok "
export type PostScalarWhereInput = {
  where?: PostWhereInput
  id?: number
}".
Proof. by vm_compute. Qed.

(** C10, as stated, fails.  The two arguments have the same first
    candidate, hence the same three flags in it, and [ | null] is
    appended to one and not to the other. *)
Lemma appended_null_not_from_flags_alone :
  head (arg_inputType Sample.stringOrNull) = Some Sample.optionalString
  ∧ head (arg_inputType Sample.stringOrInt) = Some Sample.optionalString
  ∧ InputField_nullableStr (InputField_hasNull false Sample.stringOrNull)
      Sample.optionalString = ""
  ∧ InputField_nullableStr (InputField_hasNull false Sample.stringOrInt)
      Sample.optionalString = " | null"
  ∧ InputField_toTS Sample.stringOrNull false = Ok "x?: string | null"
  ∧ InputField_toTS Sample.stringOrInt false = Ok "x?: string | number | null".
Proof. by vm_compute. Qed.

(** *** The document *)

Lemma document_sections_witness :
  ∃ text clientClass models inputTypes,
    TSClient_toTS Sample.blogClient = Ok text
    ∧ PrismaClientClass_toTS (dmmf Sample.blogClient) (datasources (options Sample.blogClient))
      = Ok clientClass
    ∧ Forall2 (λ model text, Model_new model (dmmf Sample.blogClient) ≫= Model_toTS = Ok text)
        (DMMFClass_models (dmmf Sample.blogClient)) models
    ∧ Forall2 (λ type text, InputType_toTS type = Ok text)
        (schema_inputTypes (dmmf Sample.blogClient)) inputTypes
    ∧ text = TSClient_template
               (commonCodeTS (runtimePath (options Sample.blogClient))
                  (clientVersion (options Sample.blogClient))
                  (engineVersion (options Sample.blogClient)))
               clientClass (Enum_toTS <$> schema_enums (dmmf Sample.blogClient))
               models inputTypes.
Proof.
  assert (∃ text, TSClient_toTS Sample.blogClient = Ok text) as [text Htext].
  { eexists. vm_compute. reflexivity. }
  destruct (document_sections_in_order Sample.blogClient text Htext)
    as (clientClass & models & inputTypes & Hclass & Hmodels & Hinputs & Hdoc).
  exists text, clientClass, models, inputTypes. by split_and!.
Defined.

(** C9, as stated, fails.  The text of the models names
    [PostWhereInput] and [BatchPayload] and declares neither; the first
    is declared among the input types and the second in the batch
    result, both further down in the document. *)
Lemma model_text_names_later_declarations :
  ∃ models inputTypes text reference declaration,
    mapM (λ model, Model_new model Sample.blog ≫= Model_toTS)
      (DMMFClass_models Sample.blog) = Ok models
    ∧ mapM InputType_toTS (schema_inputTypes Sample.blog) = Ok inputTypes
    ∧ is_Some (String.index 0 "where?: PostWhereInput" (JS.join JS.LF models))
    ∧ String.index 0 "export type PostWhereInput = " (JS.join JS.LF models) = None
    ∧ is_Some (String.index 0 "export type PostWhereInput = " (JS.join JS.LF inputTypes))
    ∧ is_Some (String.index 0 "): Promise<BatchPayload>" (JS.join JS.LF models))
    ∧ String.index 0 "export type BatchPayload = " (JS.join JS.LF models) = None
    ∧ TSClient_toTS Sample.blogClient = Ok text
    ∧ String.index 0 "where?: PostWhereInput" text = Some reference
    ∧ String.index 0 "export type PostWhereInput = " text = Some declaration
    ∧ reference < declaration.
Proof.
  eexists _, _, _, _, _.
  split; [vm_compute; reflexivity|].
  split; [vm_compute; reflexivity|].
  split; [vm_compute; by eexists|].
  split; [vm_compute; reflexivity|].
  split; [vm_compute; by eexists|].
  split; [vm_compute; by eexists|].
  split; [vm_compute; reflexivity|].
  split; [vm_compute; reflexivity|].
  split; [vm_compute; reflexivity|].
  split; [vm_compute; reflexivity|].
  vm_compute. lia.
Qed.

(** *** The caller's document *)

Lemma caller_document_witness :
  ∃ this : TSClient positive,
    (Heap.TSClient_new HeapSample.callerOptions HeapSample.callerStore).1 = Ok this
    ∧ HeapSample.callerStore
        ⊆ (Heap.TSClient_new HeapSample.callerOptions HeapSample.callerStore).2
    ∧ Forall (λ l, l ∉ dom HeapSample.callerStore) (Heap.locs_of (dmmf this))
    ∧ (∀ l, l ∈ dom HeapSample.callerStore →
         Heap.emissions this [Heap.toTS; Heap.toJS; Heap.toTS]
           (Heap.TSClient_new HeapSample.callerOptions HeapSample.callerStore).2 !! l
         = HeapSample.callerStore !! l)
    ∧ ∃ content : Document SchemaArg,
        (Heap.deref (document HeapSample.callerOptions) HeapSample.callerStore).1
        = Ok content
        ∧ (Heap.deref (dmmf this)
             (Heap.TSClient_new HeapSample.callerOptions HeapSample.callerStore).2).1
          = Ok content
        ∧ (Heap.deref (document (options this))
             (Heap.emissions this [Heap.toTS; Heap.toJS; Heap.toTS]
                (Heap.TSClient_new HeapSample.callerOptions HeapSample.callerStore).2)).1
          = Ok content.
Proof.
  assert (∃ this,
    (Heap.TSClient_new HeapSample.callerOptions HeapSample.callerStore).1 = Ok this)
    as [this Hthis].
  { eexists. vm_compute. reflexivity. }
  exists this. split; [exact Hthis|].
  exact (caller_document_is_never_mutated HeapSample.callerOptions
           HeapSample.callerStore this [Heap.toTS; Heap.toJS; Heap.toTS] Hthis).
Defined.

(** The copy is what keeps the caller's document as it is: a client
    that works on the caller's document itself stores a comment in the
    caller's first descriptor, and the client the constructor returns
    stores it in the copy. *)
Example emission_assigns_to_the_descriptors_it_works_on :
  arg_comment <$> HeapSample.callerStore !! 1%positive = Some None
  ∧ arg_comment <$> Heap.emissions HeapSample.sharing [Heap.toTS]
                      HeapSample.callerStore !! 1%positive
    = Some (Some "Filter, which Posts to fetch.")
  ∧ ∃ this σ,
      Heap.TSClient_new HeapSample.callerOptions HeapSample.callerStore = (Ok this, σ)
      ∧ arg_comment <$> Heap.emissions this [Heap.toTS] σ !! 1%positive = Some None
      ∧ arg_comment <$> Heap.emissions this [Heap.toTS] σ !! 10%positive
        = Some (Some "Filter, which Posts to fetch.").
Proof.
  split; [by vm_compute|]. split; [by vm_compute|].
  eexists _, _. split; [vm_compute; reflexivity|]. split; by vm_compute.
Qed.

End Examples.
